(** * PyAPplus64: the GUI example scripts and the duplication design

    - Part I, [Gui], embeds the functions of the two GUI example scripts,
      [examples/complete_sql.pyw] and [examples/mengenabweichung_gui.pyw],
      as they are written: Python exceptions become a sum type, calls into
      the GUI toolkit and into [mengenabweichung] become events of a trace,
      and the library functions they call are parameters.
    - Part II, [Duplication], models the record-duplication component,
      whose Python module is not part of the examples; its definitions
      follow the written design of the component.
    - Part II-b embeds the event loops of the two scripts, their [main]
      functions, turn by turn.
    - Parts III and IV prove the properties of Parts I and II, Part V
      further properties of the scripts and their loops. *)

From Stdlib Require Import String Ascii List ZArith Lia Bool.
From stdpp Require Import base gmap strings list pretty.

Local Open Scope string_scope.
Local Open Scope Z_scope.

(* ===================================================================== *)
(** * Part I: the GUI example scripts *)
(* ===================================================================== *)

Module Gui.

(** ** Exceptions, events and the script monad *)

(** The exceptions the scripts can meet: a name that is not bound (a failed
    optional import, or an unbound name in an [except] clause), and an
    exception raised inside a library call. *)
Inductive exn : Type :=
  | NameError (name : string)
  | LibraryError (what : string).

(** [datetime.datetime] as far as ['%d.%m.%Y'] fills it: the time of day is
    midnight. *)
Record datetime : Type := Datetime { year : Z; month : Z; day : Z }.

(** What a script does to the outside world, in the order it does it. *)
Inductive event : Type :=
  | PopupError (msg : string)
  | PopupOk (msg : string)
  | ExportVonBis (file : string) (von bis : option datetime).

(** A computation leaves a trace of events and either raises or returns. *)
Definition M (A : Type) : Type := (list event * (exn + A))%type.

Definition ret {A} (a : A) : M A := ([], inr a).
Definition emit (ev : event) : M unit := ([ev], inr tt).
Definition lift {A} (r : exn + A) : M A := ([], r).

Definition bind {A B} (m : M A) (k : A -> M B) : M B :=
  match m with
  | (t, inl e) => (t, inl e)
  | (t, inr a) => let '(t', r) := k a in ((t ++ t')%list, r)
  end.

Notation "x <- m ;; k" := (bind m (fun x => k))
  (at level 100, m at next level, right associativity).
Notation "m ;;; k" := (bind m (fun _ => k))
  (at level 100, right associativity).

Definition trace {A} (m : M A) : list event := fst m.
Definition outcome {A} (m : M A) : exn + A := snd m.

(** ** [complete_sql.pyw] *)

(** [str.replace("N '", "N'")]: every occurrence, leftmost first, without
    overlap. *)
Fixpoint fix_string_constants (s : string) : string :=
  match s with
  | String "N" (String " " (String "'" rest)) =>
      String "N" (String "'" (fix_string_constants rest))
  | String c rest => String c (fix_string_constants rest)
  | EmptyString => EmptyString
  end.

Section PrettyPrint.

(** The two formatter libraries are optional imports of the script; a call
    either returns the formatted text or raises (a [NameError] when the
    import failed).
    - [sqlfmt_format_string sql]: [sqlfmt.api.format_string] under
      [Mode(dialect_name="ClickHouse")];
    - [sqlparse_format_reindent sql]: [sqlparse.format] with
      [reindent=True, keyword_case='upper'];
    - [sqlparse_format_aligned sql]: [sqlparse.format] with
      [reindent_aligned=True, keyword_case='upper']. *)
Variable sqlfmt_format_string : string -> exn + string.
Variable sqlparse_format_reindent : string -> exn + string.
Variable sqlparse_format_aligned : string -> exn + string.

(** The body of the [try] block. *)
Definition prettyPrintSQL_body (format sql : string) : exn + string :=
  if (format =? "sqlfmt")%string then
    match sqlfmt_format_string sql with
    | inr sqlPretty => inr (fix_string_constants sqlPretty)
    | inl e => inl e
    end
  else if (format =? "sqlparse-2")%string then
    sqlparse_format_reindent sql
  else if (format =? "sqlparse")%string then
    sqlparse_format_aligned sql
  else
    inr sql.

(** The handler is written [except e:]. The expression [e] is evaluated
    when an exception reaches the clause; no such name is bound in the
    module, so the handler itself raises [NameError] and its body never
    runs. *)
Definition prettyPrintSQL (format sql : string) : exn + string :=
  match prettyPrintSQL_body format sql with
  | inr v => inr v
  | inl _ => inl (NameError "e")
  end.

End PrettyPrint.

(** ** [mengenabweichung_gui.pyw] *)

(** *** A reference reading of [strptime] for ['%d.%m.%Y']

    [strptime] belongs to the Python library; the functions of the script
    are embedded over an arbitrary [strptime] below. The reading here, for
    ASCII input, serves to run them on concrete dates. The library compiles
    the format to the anchored pattern
    [(3[0-1]|[1-2]\d|0[1-9]|[1-9]| [1-9])\.(1[0-2]|0[1-9]|[1-9])\.(\d\d\d\d)],
    refuses text left over after the match, and builds the date, which
    refuses year 0 and a day past the end of the month. *)

Definition digit_of (c : ascii) : option Z :=
  let n := Z.of_N (N_of_ascii c) in
  if (48 <=? n) && (n <=? 57) then Some (n - 48) else None.

Fixpoint until_dot (s : string) : option (string * string) :=
  match s with
  | EmptyString => None
  | String c rest =>
      if (c =? ".")%char then Some (EmptyString, rest)
      else match until_dot rest with
           | Some (tok, rest') => Some (String c tok, rest')
           | None => None
           end
  end.

Definition two_digits (a b : ascii) : option Z :=
  match digit_of a, digit_of b with
  | Some x, Some y => Some (10 * x + y)
  | _, _ => None
  end.

Definition parse_day (tok : string) : option Z :=
  match tok with
  | String a EmptyString =>
      match digit_of a with
      | Some x => if 1 <=? x then Some x else None
      | None => None
      end
  | String a (String b EmptyString) =>
      if (a =? " ")%char then
        match digit_of b with
        | Some y => if 1 <=? y then Some y else None
        | None => None
        end
      else
        match two_digits a b with
        | Some n => if (1 <=? n) && (n <=? 31) then Some n else None
        | None => None
        end
  | _ => None
  end.

Definition parse_month (tok : string) : option Z :=
  match tok with
  | String a EmptyString =>
      match digit_of a with
      | Some x => if 1 <=? x then Some x else None
      | None => None
      end
  | String a (String b EmptyString) =>
      match two_digits a b with
      | Some n => if (1 <=? n) && (n <=? 12) then Some n else None
      | None => None
      end
  | _ => None
  end.

Definition parse_year (tok : string) : option Z :=
  match tok with
  | String a (String b (String c (String d EmptyString))) =>
      match two_digits a b, two_digits c d with
      | Some hi, Some lo => Some (100 * hi + lo)
      | _, _ => None
      end
  | _ => None
  end.

Definition is_leap (y : Z) : bool :=
  ((y mod 4 =? 0) && negb (y mod 100 =? 0)) || (y mod 400 =? 0).

Definition days_in_month (y m : Z) : Z :=
  if m =? 2 then (if is_leap y then 29 else 28)
  else if (m =? 4) || (m =? 6) || (m =? 9) || (m =? 11) then 30
  else 31.

Definition strptime_dmY (data : string) : option datetime :=
  match until_dot data with
  | Some (dtok, rest) =>
      match until_dot rest with
      | Some (mtok, ytok) =>
          match parse_day dtok, parse_month mtok, parse_year ytok with
          | Some d, Some m, Some y =>
              if (1 <=? y) && (d <=? days_in_month y m)
              then Some (Datetime y m d) else None
          | _, _, _ => None
          end
      | None => None
      end
  | None => None
  end.

Definition strptime_model (data format : string) : exn + datetime :=
  if (format =? "%d.%m.%Y")%string then
    match strptime_dmY data with
    | Some d => inr d
    | None => inl (LibraryError "ValueError")
    end
  else inl (LibraryError "format outside the model").

(** *** The functions of the script *)

Definition popup_error (msg : string) : M unit := emit (PopupError msg).
Definition popup_ok (msg : string) : M unit := emit (PopupOk msg).

Section Mengenabweichung.

(** [datetime.datetime.strptime data format]: the parsed date, or the
    exception it raises. *)
Variable strptime : string -> string -> exn + datetime.

(** [mengenabweichung.exportVonBis server file von bis] writes the
    spreadsheet and returns the number of records, or raises. *)
Variable Server : Type.
Variable exportVonBis :
  Server -> string -> option datetime -> option datetime -> exn + Z.

(** [pathlib.Path(s).as_posix()] and [str(pathlib.Path(s))]. *)
Variable as_posix : string -> string.
Variable path_str : string -> string.

Definition parseDate (dateS : option string) : M (option datetime * bool) :=
  match dateS with
  | None => ret (None, true)
  | Some s =>
      if (s =? "")%string then ret (None, true)
      else
        match strptime s "%d.%m.%Y" with
        | inr d => ret (Some d, true)
        | inl _ =>
            popup_error ("Fehler beim Parsen des Datums '" +:+ s +:+ "'") ;;;
            ret (None, false)
        end
  end.

Definition call_exportVonBis (server : Server) (file : string)
    (von bis : option datetime) : M Z :=
  emit (ExportVonBis file von bis) ;;;
  lift (exportVonBis server file von bis).

Definition createFile (server : Server) (fileS vonS bisS : option string)
    : M unit :=
  r1 <- parseDate vonS ;;
  let '(von, vonOK) := r1 in
  if negb vonOK then ret tt else
  r2 <- parseDate bisS ;;
  let '(bis, bisOK) := r2 in
  if negb bisOK then ret tt else
  match fileS with
  | None =>
      popup_error "Es wurde keine Ausgabedatei ausgewählt."
  | Some f =>
      if (f =? "")%string then
        popup_error "Es wurde keine Ausgabedatei ausgewählt."
      else
        c <- call_exportVonBis server (as_posix f) von bis ;;
        popup_ok (pretty c +:+ " Datensätze erfolgreich in Datei '"
                  +:+ path_str f +:+ "' geschrieben.")
  end.

(** The two guards of [createFile], as conditions on its arguments. *)
Definition date_accepted (dateS : option string) : bool :=
  match dateS with
  | None => true
  | Some s =>
      (s =? "")%string ||
      match strptime s "%d.%m.%Y" with inr _ => true | inl _ => false end
  end.

Definition file_chosen (fileS : option string) : bool :=
  match fileS with
  | None => false
  | Some f => negb (f =? "")%string
  end.

End Mengenabweichung.

Definition is_export (ev : event) : bool :=
  match ev with ExportVonBis _ _ _ => true | _ => false end.

End Gui.

(* ===================================================================== *)
(** * Part II: the duplication component, from its written design *)
(* ===================================================================== *)

(** The Python module of the duplication component is not among the
    example scripts. Every definition of this part is therefore modelled
    from the design text of the component: its data model, the three steps
    of its core algorithm, the materialisation of a snapshot through record
    insertion, and its failure policy. *)

Module Duplication.

(** Modelled from the spec: the values of a field map ("field-name to
    value mappings"); the design names strings and numbers, and a database
    column may be NULL. *)
Inductive value : Type :=
  | VNull
  | VStr (s : string)
  | VNum (n : Z).

#[global] Instance value_eq_dec : EqDecision value.
Proof. solve_decision. Defined.

#[global] Instance value_inhabited : Inhabited value := populate VNull.

#[local] Unset Elimination Schemes.

(** Modelled from the spec: a dependent-object relation of a descriptor,
    "naming a child business-object type and the foreign-key field linking
    it to the parent". Descriptors are assumed acyclic, so the relation
    carries the child's descriptor; its name is what a plan refers to. *)
Record relation_of (D : Type) : Type := Relation {
  rel_name : string;
  rel_child : D;
  rel_fk : string;
}.

Arguments Relation {D} _ _ _.
Arguments rel_name {D} _.
Arguments rel_child {D} _.
Arguments rel_fk {D} _.

(** Modelled from the spec: BusinessObjectDescriptor, "a metadata record
    naming a business-object type, its copyable field list, and its
    dependent-object relations". [bo_id] is the identifier field that step 2
    of the algorithm refers to. *)
Inductive descriptor : Type := Descriptor {
  bo_type : string;
  bo_id : string;
  bo_fields : list string;
  bo_relations : list (relation_of descriptor);
}.

(** Modelled from the spec: DuplicationPlan, a "mapping from field name to
    override value" plus "a set of relation names to include/exclude". The
    plan of the worked example, [{fields: {id: "A200"}}], names no relation
    and its bill of materials is copied: a relation is included unless the
    plan excludes it. *)
Record plan : Type := Plan {
  plan_fields : gmap string value;
  plan_excluded : gset string;
}.

(** Modelled from the spec: RecordSnapshot, "a tree mirroring a business
    object and its included dependents, each node holding field-name to
    value mappings". A node keeps its type and source identifier (what a
    DuplicationError reports) and its dependants grouped by relation. *)
Inductive snapshot : Type := Snapshot {
  snap_type : string;
  snap_source_id : value;
  snap_fields : gmap string value;
  snap_children : list (string * list snapshot);
}.

#[local] Set Elimination Schemes.

(** Modelled from the spec: what makes a node fail: a missing source
    record, a fault of the remote call [nextNumber] ("RemoteCallError
    carrying the server-reported fault") or the server rejecting an insert
    ("ValidationError ... reported back verbatim"). *)
Inductive fault : Type :=
  | NotFound
  | RemoteCallError (text : string)
  | ValidationError (text : string).

(** Modelled from the spec: DuplicationError, "identifying the failing
    node's type and source identifier". *)
Record DuplicationError : Type := Failed {
  failed_type : string;
  failed_source_id : value;
  failed_cause : fault;
}.

(** Modelled from the spec: the reads issued against the source system,
    kept to tell which records were read for copying. *)
Inductive query : Type :=
  | ReadRecord (ty : string) (id : value)
  | ReadDependents (relation child_type fk : string) (parent_id : value).

Section Sessions.

(** Modelled from the spec: the servers behind the session, which the
    component treats as opaque.
    - [nextNumber ty] allocates the next identifier string for a
      business-object type, or reports a fault; it changes the server.
    - [validate target ty fields] is the server-side check of an insert:
      [None] accepts, [Some text] rejects with that text.
    - [source] holds the records of the source system, each under its
      business-object type. *)
Variable server : Type.
Variable nextNumber : string -> server -> (string + string) * server.
Variable validate :
  list (string * gmap string value) -> string -> gmap string value ->
  option string.
Variable source : list (string * gmap string value).

(** Modelled from the spec: the state one duplication call works on: the
    number server, the reads issued so far, and the records created on the
    target so far, oldest first. *)
Record world : Type := World {
  w_server : server;
  w_queries : list query;
  w_target : list (string * gmap string value);
}.

(** Modelled from the spec: a step of the component either fails with a
    DuplicationError or returns; either way the world stays as the step
    left it (no rollback). *)
Definition M (A : Type) : Type := world -> (DuplicationError + A) * world.

Definition ret {A} (a : A) : M A := fun w => (inr a, w).

Definition bind {A B} (m : M A) (k : A -> M B) : M B :=
  fun w => match m w with
           | (inr a, w') => k a w'
           | (inl e, w') => (inl e, w')
           end.

Notation "x <- m ;; k" := (bind m (fun x => k))
  (at level 100, m at next level, right associativity).
Notation "m ;;; k" := (bind m (fun _ => k))
  (at level 100, right associativity).

Fixpoint mapM {A B} (f : A -> M B) (items : list A) : M (list B) :=
  match items with
  | a :: rest => b <- f a ;; bs <- mapM f rest ;; ret (b :: bs)
  | [] => ret []
  end.

Fixpoint iterM {A} (f : A -> M unit) (items : list A) : M unit :=
  match items with
  | a :: rest => f a ;;; iterM f rest
  | [] => ret tt
  end.

(** Modelled from the spec: the records of type [ty] whose field [k] holds
    [v], in the order of the source. *)
Definition select (ty k : string) (v : value) : list (gmap string value) :=
  (filter (fun rec : string * gmap string value =>
             rec.1 = ty /\ rec.2 !! k = Some v) source).*2.

(** Modelled from the spec: step 1, "read the source record": the record of
    the type with the given identifier; the node fails when there is none. *)
Definition read_record (ty idf : string) (id : value)
    : M (gmap string value) :=
  fun w =>
    let w' := World (w_server w) (w_queries w ++ [ReadRecord ty id])
                (w_target w) in
    match select ty idf id with
    | r :: _ => (inr r, w')
    | [] => (inl (Failed ty id NotFound), w')
    end.

(** Modelled from the spec: step 3, "read ... each dependent record" of a
    relation: the child records whose foreign key holds the parent's source
    identifier. *)
Definition read_dependents (relation child_type fk : string)
    (parent_id : value) : M (list (gmap string value)) :=
  fun w =>
    (inr (select child_type fk parent_id),
     World (w_server w)
       (w_queries w ++ [ReadDependents relation child_type fk parent_id])
       (w_target w)).

(** Modelled from the spec: the call of [nextNumber] for a node. *)
Definition allocate (ty : string) (sid : value) : M string :=
  fun w =>
    match nextNumber ty (w_server w) with
    | (inr n, sv) => (inr n, World sv (w_queries w) (w_target w))
    | (inl text, sv) =>
        (inl (Failed ty sid (RemoteCallError text)),
         World sv (w_queries w) (w_target w))
    end.

(** Modelled from the spec: Record Mutation's [insert(type, fields)] for a
    node: an accepted record is added to the target; a rejected one fails
    the node and leaves the target as it is. *)
Definition insert (ty : string) (sid : value) (f : gmap string value)
    : M unit :=
  fun w =>
    match validate (w_target w) ty f with
    | None =>
        (inr tt, World (w_server w) (w_queries w) (w_target w ++ [(ty, f)]))
    | Some text => (inl (Failed ty sid (ValidationError text)), w)
    end.

(** Modelled from the spec: step 1, "the source record's copyable fields
    (per descriptor)". *)
Definition copyable (flds : list string) (r : gmap string value)
    : gmap string value :=
  filter (fun kv : string * value => kv.1 ∈ flds) r.

(** Modelled from the spec: step 2, "apply DuplicationPlan overrides to
    produce the new field set; if no override is given for the identifier
    field, request one via nextNumber". *)
Definition new_fields (ty idf : string) (flds : list string)
    (ov r : gmap string value) : M (gmap string value) :=
  let base := ov ∪ copyable flds r in
  match ov !! idf with
  | Some _ => ret base
  | None => n <- allocate ty (r !!! idf) ;; ret (<[idf := VStr n]> base)
  end.

(** Modelled from the spec: steps 1 to 3 for the source record [r] of
    descriptor [d]: the new field set, then "for each included relation in
    the descriptor, recursively read and duplicate each dependent record,
    substituting the new parent identifier into the child's foreign-key
    field", depth first. A dependent record is duplicated like its parent,
    under the one override that sets its foreign key. *)
Fixpoint load (d : descriptor) (excluded : gset string)
    (ov r : gmap string value) {struct d} : M snapshot :=
  match d with
  | Descriptor ty idf flds rels =>
      f <- new_fields ty idf flds ov r ;;
      kids <-
        (fix walk (rels : list (relation_of descriptor))
           : M (list (string * list snapshot)) :=
           match rels with
           | [] => ret []
           | Relation name child fk :: rest =>
               if decide (name ∈ excluded) then walk rest
               else
                 recs <- read_dependents name (bo_type child) fk
                           (r !!! idf) ;;
                 ks <- mapM (load child excluded {[fk := f !!! idf]}) recs ;;
                 more <- walk rest ;;
                 ret ((name, ks) :: more)
           end) rels ;;
      ret (Snapshot ty (r !!! idf) f kids)
  end.

(** The walk over the relations inside [load], as a function of its own. *)
Fixpoint load_relations (excluded : gset string) (sid newid : value)
    (rels : list (relation_of descriptor))
    : M (list (string * list snapshot)) :=
  match rels with
  | [] => ret []
  | rel :: rest =>
      if decide (rel_name rel ∈ excluded) then
        load_relations excluded sid newid rest
      else
        recs <- read_dependents (rel_name rel) (bo_type (rel_child rel))
                  (rel_fk rel) sid ;;
        ks <- mapM (load (rel_child rel) excluded {[rel_fk rel := newid]})
                recs ;;
        more <- load_relations excluded sid newid rest ;;
        ret ((rel_name rel, ks) :: more)
  end.

(** Modelled from the spec: step 4, "materialize the resulting
    RecordSnapshot ... by calling Record Mutation against a target
    session": a node is inserted before its dependants; the first failure
    ends the traversal. *)
Fixpoint materialize (s : snapshot) : M unit :=
  match s with
  | Snapshot ty sid f kids =>
      insert ty sid f ;;;
      iterM (fun g : string * list snapshot => iterM materialize g.2) kids
  end.

(** Modelled from the spec: the duplication operation, "given a source
    record identifier, a BusinessObjectDescriptor, and a DuplicationPlan". *)
Definition duplicate (d : descriptor) (id : value) (p : plan) : M snapshot :=
  r <- read_record (bo_type d) (bo_id d) id ;;
  s <- load d (plan_excluded p) (plan_fields p) r ;;
  materialize s ;;;
  ret s.

(** The world after [ts] more records were created on the target. *)
Definition grown (w : world) (ts : list (string * gmap string value))
    : world :=
  World (w_server w) (w_queries w) (w_target w ++ ts).

#[local] Unset Elimination Schemes.

(** [mirrors excluded d r s]: the snapshot [s] is a copy of the source
    record [r] of descriptor [d]: below every node there is one group per
    relation that is not excluded, in the descriptor's order, and in each
    group one child per dependent source record, in the source's order, each
    a copy in turn whose foreign key holds the node's new identifier. *)
Inductive mirrors (excluded : gset string)
    : descriptor -> gmap string value -> snapshot -> Prop :=
  | Mirrors (d : descriptor) (r f : gmap string value)
      (kids : list (string * list snapshot)) :
      Forall2
        (fun (rel : relation_of descriptor) (g : string * list snapshot) =>
           g.1 = rel_name rel /\
           Forall2
             (fun (rec : gmap string value) (c : snapshot) =>
                mirrors excluded (rel_child rel) rec c /\
                snap_fields c !! rel_fk rel = Some (f !!! bo_id d))
             (select (bo_type (rel_child rel)) (rel_fk rel) (r !!! bo_id d))
             g.2)
        (filter (fun rel => rel_name rel ∉ excluded) (bo_relations d))
        kids ->
      mirrors excluded d r (Snapshot (bo_type d) (r !!! bo_id d) f kids).

#[local] Set Elimination Schemes.

End Sessions.

(** The records of a snapshot in the order of a depth-first walk: a node,
    then its groups in turn, each child with everything below it. *)
Fixpoint records (s : snapshot) : list (string * gmap string value) :=
  match s with
  | Snapshot ty _ f kids =>
      (ty, f) ::
      flat_map (fun g : string * list snapshot => flat_map records g.2) kids
  end.

(** The records a snapshot holds for the relation [name], at any depth:
    the children of the groups of that name with everything below them. *)
Fixpoint records_of_relation (name : string) (s : snapshot)
    : list (string * gmap string value) :=
  match s with
  | Snapshot _ _ _ kids =>
      flat_map (fun g : string * list snapshot =>
                  ((if decide (g.1 = name) then flat_map records g.2 else [])
                   ++ flat_map (records_of_relation name) g.2)%list) kids
  end.

(** Whether a query reads the dependants of the relation [name]. *)
Definition reads_relation (name : string) (q : query) : bool :=
  match q with
  | ReadDependents n _ _ _ => bool_decide (n = name)
  | ReadRecord _ _ => false
  end.

(** From [w] to [w'] only queries were added, none of them for the
    dependants of the relation [name]. *)
Definition quiet_about {server : Type} (name : string)
    (w w' : world server) : Prop :=
  exists qs, w_queries server w' = (w_queries server w ++ qs)%list
             /\ Forall (fun q => reads_relation name q = false) qs.

(** ** The worked example of the design

    "Source article record [{id: "A100", desc: "Widget"}] with one dependent
    bill-of-materials relation containing two lines". The source also holds
    a field of the article outside its copyable list and a line of another
    article. Numbers come from a counter; the target accepts every
    record. *)

Definition bom_line : descriptor :=
  Descriptor "bom_line" "line" ["line"; "parent"; "part"; "qty"] [].

Definition article : descriptor :=
  Descriptor "article" "id" ["id"; "desc"]
    [Relation "bom" bom_line "parent"].

Definition plain_article : descriptor :=
  Descriptor "article" "id" ["id"; "desc"] [].

Definition widget : gmap string value :=
  {[ "id" := VStr "A100"; "desc" := VStr "Widget";
     "upddate" := VStr "2023-01-01" ]}.

Definition example_source : list (string * gmap string value) :=
  [ ("article", widget);
    ("bom_line", {[ "line" := VStr "L1"; "parent" := VStr "A100";
                    "part" := VStr "bolt"; "qty" := VNum 4 ]});
    ("bom_line", {[ "line" := VStr "L7"; "parent" := VStr "A999";
                    "part" := VStr "gear"; "qty" := VNum 1 ]});
    ("bom_line", {[ "line" := VStr "L2"; "parent" := VStr "A100";
                    "part" := VStr "nut"; "qty" := VNum 8 ]}) ].

Definition counter_nextNumber (ty : string) (n : N)
    : (string + string) * N :=
  (inr (ty +:+ "-" +:+ pretty n), N.succ n).

Definition accept_all (t : list (string * gmap string value)) (ty : string)
    (f : gmap string value) : option string := None.

Definition example_plan : plan := Plan {[ "id" := VStr "A200" ]} ∅.

Definition example_plan_without_bom : plan :=
  Plan {[ "id" := VStr "A200" ]} {[ "bom" ]}.

Definition start : world N := World N 1%N [] [].

Definition example_duplicate (d : descriptor) (p : plan)
    : (DuplicationError + snapshot) * world N :=
  duplicate N counter_nextNumber accept_all example_source d (VStr "A100") p
    start.

End Duplication.

(* ===================================================================== *)
(** * Part II-b: the event loops of the two example scripts *)
(* ===================================================================== *)

(** ** [complete_sql.pyw]: [main]

    One turn of the loop handles one result of [window.read()]. What the
    widgets and the clipboard return when the handler asks them is part of
    that input; what the handler does to them is a list of actions. The two
    locals that outlive a turn, [oldSys] and [server], are the state. *)

Module CompleteSqlMain.

Import Gui.

(** [needle] occurs in [haystack]. *)
Definition occurs (needle haystack : string) : Prop :=
  exists pre post, haystack = pre +:+ needle +:+ post.

(** [s] begins with the three characters [N], space, quote. *)
Definition starts_with_gap (s : string) : bool :=
  match s with
  | String a (String b (String c _)) =>
      (a =? "N")%char && (b =? " ")%char && (c =? "'")%char
  | _ => false
  end.

Section Main.

(** The entries of [applus_configs.serverConfDescs], compared by [==], and
    the server objects their [connect()] returns. Truth values of the two
    kinds of object (in [if server:] and [sys and ...]) are what their
    classes make them. *)
Variable Desc : Type.
Context `{desc_eq : EqDecision Desc}.
Variable Conn : Type.
Variable connect : Desc -> exn + Conn.
Variable completeSQL : Conn -> string -> exn + string.
Variable truthy_desc : Desc -> bool.
Variable truthy_conn : Conn -> bool.

(** [str(e)]. *)
Variable exn_str : exn -> string.

Variable sqlfmt_format_string : string -> exn + string.
Variable sqlparse_format_reindent : string -> exn + string.
Variable sqlparse_format_aligned : string -> exn + string.

(** The values of the combo box [sysenv]: the entry "-" or a connection
    description. *)
Inductive sysenv : Type :=
  | NoSystem
  | System (d : Desc).

#[global] Instance sysenv_eq_dec : EqDecision sysenv.
Proof. solve_decision. Defined.

(** The local [server]: not yet assigned, or assigned [None] or a server
    object. *)
Inductive binding : Type :=
  | Unbound
  | Bound (c : option Conn).

Record locals : Type := Locals {
  oldSys : option sysenv;
  server : binding;
}.

(** One result of [window.read()] with what the handler may read. *)
Record reading : Type := Reading {
  r_event : option string;      (* [None] is [sg.WIN_CLOSED] *)
  r_input : string;             (* [window['input'].get()] *)
  r_output : string;            (* [window['output'].get()] *)
  r_sysenv : sysenv;            (* [window['sysenv'].get()] *)
  r_format : string;            (* [window['formatieren'].get()] *)
  r_clipboard : exn + string;   (* [window.TKroot.clipboard_get()] *)
  r_clear : option exn;         (* what [clipboard_clear()] raises *)
  r_append : option exn;        (* what [clipboard_append(...)] raises *)
}.

Inductive action : Type :=
  | Update (key value : string)
  | ClipboardClear
  | ClipboardAppend (text : string)
  | Connect (d : Desc)
  | CompleteSQL (c : Conn) (sql : string)
  | PopupTraceback (title : string) (e : exn)
  | WindowClose.

(** [if sys != oldSys: oldSys = sys; if sys and sys != "-": server =
    sys.connect() else: server = None]. The assignment to [oldSys] comes
    first, so it stands when [connect] raises. *)
Definition select_server (st : locals) (sys : sysenv)
    : list action * locals * option exn :=
  if decide (Some sys = oldSys st) then ([], st, None)
  else
    match sys with
    | System d =>
        if truthy_desc d then
          match connect d with
          | inr c => ([Connect d], Locals (Some sys) (Bound (Some c)), None)
          | inl e => ([Connect d], Locals (Some sys) (server st), Some e)
          end
        else ([], Locals (Some sys) (Bound None), None)
    | NoSystem => ([], Locals (Some sys) (Bound None), None)
    end.

(** The body of the [try] block of the event 'Vervollständigen'. Reading
    [server] while it is unassigned raises [UnboundLocalError], a
    [NameError]. *)
Definition complete (st : locals) (r : reading)
    : list action * locals * (exn + string) :=
  if (r_input r =? "")%string then ([], st, inr "")
  else
    let '(t, st1, raised) := select_server st (r_sysenv r) in
    match raised with
    | Some e => (t, st1, inl e)
    | None =>
        match server st1 with
        | Unbound => (t, st1, inl (NameError "server"))
        | Bound (Some c) =>
            if truthy_conn c then
              match completeSQL c (r_input r) with
              | inr sqlOut =>
                  ((t ++ [CompleteSQL c (r_input r)])%list, st1,
                   prettyPrintSQL sqlfmt_format_string
                     sqlparse_format_reindent sqlparse_format_aligned
                     (r_format r) sqlOut)
              | inl e =>
                  ((t ++ [CompleteSQL c (r_input r)])%list, st1, inl e)
              end
            else
              (t, st1,
               prettyPrintSQL sqlfmt_format_string sqlparse_format_reindent
                 sqlparse_format_aligned (r_format r) (r_input r))
        | Bound None =>
            (t, st1,
             prettyPrintSQL sqlfmt_format_string sqlparse_format_reindent
               sqlparse_format_aligned (r_format r) (r_input r))
        end
    end.

(** The event 'Vervollständigen': the [try] block, its handler [except
    Exception as e], and the update of the output box. *)
Definition on_complete (st : locals) (r : reading) : list action * locals :=
  let '(t, st1, res) := complete st r in
  match res with
  | inr sqlOut => ((t ++ [Update "output" sqlOut])%list, st1)
  | inl e =>
      ((t ++ [PopupTraceback "Fehler bei Vervollständigung" e;
              Update "output" ("ERROR: " +:+ exn_str e)])%list, st1)
  end.

(** The event 'export': [try: clipboard_clear(); clipboard_append(...)
    except: pass]. *)
Definition on_export (r : reading) : list action :=
  match r_clear r with
  | Some _ => [ClipboardClear]
  | None => [ClipboardClear; ClipboardAppend (r_output r)]
  end.

(** One turn of the loop; the flag is [false] on [break]. *)
Definition handle (st : locals) (r : reading) : list action * locals * bool :=
  match r_event r with
  | None => ([], st, false)
  | Some ev =>
      if (ev =? "Beenden")%string then ([], st, false)
      else if (ev =? "clear")%string then
        ([Update "input" ""; Update "output" ""], st, true)
      else if (ev =? "import")%string then
        ([Update "input"
            (match r_clipboard r with inr text => text | inl _ => "" end);
          Update "output" ""], st, true)
      else if (ev =? "export")%string then (on_export r, st, true)
      else if (ev =? "Vervollständigen")%string then
        let '(t, st1) := on_complete st r in (t, st1, true)
      else ([], st, true)
  end.

(** [while True: ...] over the results [window.read()] delivers, then
    [window.close()]. A list that ends before the window is closed is a
    run that is still waiting. *)
Fixpoint main_loop (st : locals) (rs : list reading) : list action * locals :=
  match rs with
  | [] => ([], st)
  | r :: rest =>
      let '(t, st1, go) := handle st r in
      if go then
        let '(t', st2) := main_loop st1 rest in ((t ++ t')%list, st2)
      else ((t ++ [WindowClose])%list, st1)
  end.

Definition main (rs : list reading) : list action * locals :=
  main_loop (Locals None Unbound) rs.

Definition is_connect (a : action) : bool :=
  match a with
  | Connect _ => true
  | _ => false
  end.

Definition contacts_server (a : action) : bool :=
  match a with
  | Connect _ | CompleteSQL _ _ => true
  | _ => false
  end.

End Main.

Arguments NoSystem {Desc}.
Arguments System {Desc} d.
Arguments Unbound {Conn}.
Arguments Bound {Conn} c.
Arguments Locals {Desc Conn} oldSys server.
Arguments oldSys {Desc Conn} l.
Arguments server {Desc Conn} l.
Arguments Reading {Desc} _ _ _ _ _ _ _ _.
Arguments r_event {Desc} r.
Arguments r_input {Desc} r.
Arguments r_output {Desc} r.
Arguments r_sysenv {Desc} r.
Arguments r_format {Desc} r.
Arguments r_clipboard {Desc} r.
Arguments r_clear {Desc} r.
Arguments r_append {Desc} r.
Arguments Update {Desc Conn} key value.
Arguments ClipboardClear {Desc Conn}.
Arguments ClipboardAppend {Desc Conn} text.
Arguments Connect {Desc Conn} d.
Arguments CompleteSQL {Desc Conn} c sql.
Arguments PopupTraceback {Desc Conn} title e.
Arguments WindowClose {Desc Conn}.
Arguments contacts_server {Desc Conn} a.
Arguments is_connect {Desc Conn} a.

End CompleteSqlMain.

(** ** [mengenabweichung_gui.pyw]: [main] *)

Module MengenabweichungMain.

Import Gui.

Fixpoint zeros (k : nat) : string :=
  match k with
  | O => ""
  | S k' => String "0" (zeros k')
  end.

(** ["{:0Wd}".format(n)] for an integer [n]: the decimal digits, padded
    with zeros after the sign to [width] characters. *)
Definition format_0d (width : nat) (n : Z) : string :=
  let sign := if n <? 0 then "-" else "" in
  let digits := pretty (Z.abs_N n) in
  sign +:+ zeros (width - String.length sign - String.length digits)
       +:+ digits.

(** ["01.{:02d}.{:04d}".format(month, year)] and
    ["01.01.{:04d}".format(year)]. *)
Definition first_of_month (month year : Z) : string :=
  "01." +:+ format_0d 2 month +:+ "." +:+ format_0d 4 year.

Definition first_of_year (year : Z) : string :=
  "01.01." +:+ format_0d 4 year.

(** The text of the popup [parseDate] shows for a date it cannot parse,
    and of the popup [createFile] shows without a file. *)
Definition date_error (dateS : option string) : string :=
  "Fehler beim Parsen des Datums '" +:+ default "" dateS +:+ "'".

Definition no_file_error : string :=
  "Es wurde keine Ausgabedatei ausgewählt.".

(** The text of the popup after a successful export:
    ["{} Datensätze erfolgreich in Datei '{}' geschrieben.".format(c, file)]. *)
Definition success_message (c : Z) (file : string) : string :=
  pretty c +:+ " Datensätze erfolgreich in Datei '" +:+ file
           +:+ "' geschrieben.".

Section Main.

Variable strptime : string -> string -> exn + datetime.
Variable Server : Type.
Variable exportVonBis :
  Server -> string -> option datetime -> option datetime -> exn + Z.
Variable as_posix : string -> string.
Variable path_str : string -> string.

(** The locals [main] sets up before the loop: the server, today's month
    and year, and the pairs [mengenabweichung.computePreviousMonthYear] and
    [computeNextMonthYear] returned for them. *)
Variable server : Server.
Variables cmonth cyear : Z.
Variables pyear pmonth : Z.
Variables nyear nmonth : Z.

(** One result of [window.read()]: the event ([None] is [sg.WIN_CLOSED])
    and the dictionary of values. *)
Record reading : Type := Reading {
  r_event : option string;
  r_values : gmap string string;
}.

Inductive action : Type :=
  | Script (ev : event)
  | Update (key value : string)
  | PopupTraceback (title : string) (e : exn)
  | WindowClose.

Definition set_period (von bis : string) : list action :=
  [Update "Von" von; Update "Bis" bis].

(** The four period buttons. *)
Definition on_period (ev : string) : list action :=
  ((if (ev =? "Aktueller Monat")%string then
      set_period (first_of_month cmonth cyear) (first_of_month nmonth nyear)
    else []) ++
   (if (ev =? "Letzter Monat")%string then
      set_period (first_of_month pmonth pyear) (first_of_month cmonth cyear)
    else []) ++
   (if (ev =? "Aktuelles Jahr")%string then
      set_period (first_of_year cyear) (first_of_year (cyear + 1))
    else []) ++
   (if (ev =? "Letztes Jahr")%string then
      set_period (first_of_year (cyear - 1)) (first_of_year cyear)
    else []))%list.

(** The event 'Speichern': [createFile] on the three values, under
    [except Exception as e]. *)
Definition on_save (r : reading) : list action :=
  let '(t, res) :=
    createFile strptime Server exportVonBis as_posix path_str server
      (r_values r !! "File") (r_values r !! "Von") (r_values r !! "Bis") in
  (map Script t ++
   match res with
   | inr _ => []
   | inl e =>
       [PopupTraceback "Beim Erzeugen der Excel-Datei trat ein Fehler auf:" e]
   end)%list.

(** One turn of the loop; the flag is [false] on [break]. *)
Definition handle (r : reading) : list action * bool :=
  match r_event r with
  | None => ([], false)
  | Some ev =>
      if (ev =? "Beenden")%string then ([], false)
      else
        ((on_period ev ++
          (if (ev =? "Speichern")%string then on_save r else []))%list,
         true)
  end.

Fixpoint main_loop (rs : list reading) : list action :=
  match rs with
  | [] => []
  | r :: rest =>
      let '(t, go) := handle r in
      if go then (t ++ main_loop rest)%list else (t ++ [WindowClose])%list
  end.

(** The calls of [exportVonBis] among the actions, in order. *)
Definition exports (t : list action) : list event :=
  flat_map (fun a => match a with
                     | Script (ExportVonBis f v b) => [ExportVonBis f v b]
                     | _ => []
                     end) t.

(** The turns the loop handles: those before the first closing event. *)
Fixpoint handled (rs : list reading) : list reading :=
  match rs with
  | [] => []
  | r :: rest =>
      match r_event r with
      | None => []
      | Some ev => if (ev =? "Beenden")%string then [] else r :: handled rest
      end
  end.

(** The date [parseDate] hands on. *)
Definition parsed (dateS : option string) : option datetime :=
  match outcome (parseDate strptime dateS) with
  | inr (d, _) => d
  | inl _ => None
  end.

(** The call of [exportVonBis] a turn is due: one for 'Speichern' on a form
    whose dates are accepted and whose file is chosen, none otherwise. *)
Definition due_export (r : reading) : list event :=
  match r_event r with
  | Some ev =>
      if (ev =? "Speichern")%string
         && date_accepted strptime (r_values r !! "Von")
         && date_accepted strptime (r_values r !! "Bis")
         && file_chosen (r_values r !! "File")
      then
        match r_values r !! "File" with
        | Some f =>
            [ExportVonBis (as_posix f) (parsed (r_values r !! "Von"))
               (parsed (r_values r !! "Bis"))]
        | None => []
        end
      else []
  | None => []
  end.

End Main.

End MengenabweichungMain.

(** ** Sample surroundings to run the loops on *)

Module Samples.

Import Gui.

Definition missing (name : string) : string -> exn + string :=
  fun _ => inl (NameError name).

Definition sample_connect (d : string) : exn + string :=
  if (d =? "prod")%string then inr ("server:" +:+ d)
  else inl (LibraryError "connection refused").

Definition sample_completeSQL (c sql : string) : exn + string :=
  inr (sql +:+ " /* " +:+ c +:+ " */").

Definition sample_str (e : exn) : string :=
  match e with
  | NameError name => "name '" +:+ name +:+ "' is not defined"
  | LibraryError what => what
  end.

Definition always (A : Type) : A -> bool := fun _ => true.

(** The button 'Vervollständigen' pressed on the given selection, format
    and input. *)
Definition press (sys : CompleteSqlMain.sysenv string) (format sql : string)
    : CompleteSqlMain.reading string :=
  CompleteSqlMain.Reading (Some "Vervollständigen") sql "" sys format
    (inl (LibraryError "TclError")) None None.

Definition sample_on_complete :=
  CompleteSqlMain.on_complete string string sample_connect
    sample_completeSQL (always string) (always string) sample_str
    (missing "sqlfmt") (missing "sqlparse") (missing "sqlparse").

Definition sample_handle :=
  CompleteSqlMain.handle string string sample_connect
    sample_completeSQL (always string) (always string) sample_str
    (missing "sqlfmt") (missing "sqlparse") (missing "sqlparse").

Definition sample_main :=
  CompleteSqlMain.main string string sample_connect
    sample_completeSQL (always string) (always string) sample_str
    (missing "sqlfmt") (missing "sqlparse") (missing "sqlparse").

(** An export that fails for the file "locked.xlsx" and reports 42 records
    otherwise. *)
Definition sample_export (_ : unit) (file : string)
    (_ _ : option datetime) : exn + Z :=
  if (file =? "locked.xlsx")%string
  then inl (LibraryError "PermissionError") else inr 42.

Definition sample_createFile :=
  createFile strptime_model unit sample_export id id tt.

(** The loop of [mengenabweichung_gui.pyw] in March 2024. *)
Definition sample_loop :=
  MengenabweichungMain.main_loop strptime_model unit sample_export id id tt
    3 2024 2024 2 2024 4.

Definition click (button : string) (file von bis : string)
    : MengenabweichungMain.reading :=
  MengenabweichungMain.Reading (Some button)
    {[ "File" := file; "Von" := von; "Bis" := bis ]}.

End Samples.

(* ===================================================================== *)
(** * Part III: properties of the GUI example scripts *)
(* ===================================================================== *)

Section PrettyPrintFacts.

Import Gui.

Variable sqlfmt_format_string : string -> exn + string.
Variable sqlparse_format_reindent : string -> exn + string.
Variable sqlparse_format_aligned : string -> exn + string.

Local Abbreviation prettyPrintSQL :=
  (prettyPrintSQL sqlfmt_format_string sqlparse_format_reindent
     sqlparse_format_aligned).

Lemma eqb_false_of_neq (a b : string) : a <> b -> (a =? b)%string = false.
Proof. intros H. now apply String.eqb_neq. Qed.

(** C8. For a format name other than "sqlfmt", "sqlparse-2" and "sqlparse",
    [prettyPrintSQL] returns its SQL argument unchanged, whatever the
    formatter libraries would do. *)
Theorem prettyPrintSQL_unrecognized_format (format sql : string) :
  format <> "sqlfmt" -> format <> "sqlparse-2" -> format <> "sqlparse" ->
  prettyPrintSQL format sql = inr sql.
Proof.
  intros H1 H2 H3.
  unfold Gui.prettyPrintSQL, prettyPrintSQL_body.
  rewrite (eqb_false_of_neq _ _ H1), (eqb_false_of_neq _ _ H2),
    (eqb_false_of_neq _ _ H3).
  reflexivity.
Qed.

(** The recognised names reach the formatters; a formatter's exception
    surfaces as the [NameError] of the handler. *)
Lemma prettyPrintSQL_sqlparse (sql : string) :
  prettyPrintSQL "sqlparse" sql =
  match sqlparse_format_aligned sql with
  | inr v => inr v
  | inl _ => inl (NameError "e")
  end.
Proof. reflexivity. Qed.

(** Whatever [prettyPrintSQL] returns is the SQL itself or the output of
    the formatter its format names. *)
Lemma prettyPrintSQL_returns (format sql out : string) :
  prettyPrintSQL format sql = inr out ->
  out = sql
  \/ (format = "sqlfmt" /\ exists p, sqlfmt_format_string sql = inr p
                                  /\ out = fix_string_constants p)
  \/ (format = "sqlparse-2" /\ sqlparse_format_reindent sql = inr out)
  \/ (format = "sqlparse" /\ sqlparse_format_aligned sql = inr out).
Proof.
  unfold Gui.prettyPrintSQL, prettyPrintSQL_body.
  destruct (String.eqb_spec format "sqlfmt") as [->|_].
  { destruct (sqlfmt_format_string sql) as [e|p]; [discriminate|].
    intros [= <-]. right; left. eauto. }
  destruct (String.eqb_spec format "sqlparse-2") as [->|_].
  { destruct (sqlparse_format_reindent sql) as [e|p] eqn:E; [discriminate|].
    intros [= <-]. right; right; left. eauto. }
  destruct (String.eqb_spec format "sqlparse") as [->|_].
  { destruct (sqlparse_format_aligned sql) as [e|p] eqn:E; [discriminate|].
    intros [= <-]. right; right; right. eauto. }
  intros [= <-]. now left.
Qed.

End PrettyPrintFacts.

(** C8 at the entry "-" of the format box, with neither formatter library
    installed. *)
Lemma prettyPrintSQL_unrecognized_format_witness :
  let missing name := fun _ : string =>
    @inl Gui.exn string (Gui.NameError name) in
  ("-" <> "sqlfmt" /\ "-" <> "sqlparse-2" /\ "-" <> "sqlparse") /\
  Gui.prettyPrintSQL (missing "sqlfmt") (missing "sqlparse")
    (missing "sqlparse") "-" "SELECT N 'x' FROM ARTIKEL"
  = inr "SELECT N 'x' FROM ARTIKEL".
Proof.
  intros missing.
  assert (H1 : "-" <> "sqlfmt") by discriminate.
  assert (H2 : "-" <> "sqlparse-2") by discriminate.
  assert (H3 : "-" <> "sqlparse") by discriminate.
  split; [auto|].
  exact (prettyPrintSQL_unrecognized_format (missing "sqlfmt")
           (missing "sqlparse") (missing "sqlparse") "-"
           "SELECT N 'x' FROM ARTIKEL" H1 H2 H3).
Defined.

Section MengenabweichungFacts.

Import Gui.

Variable strptime : string -> string -> exn + datetime.
Variable Server : Type.
Variable exportVonBis :
  Server -> string -> option datetime -> option datetime -> exn + Z.
Variable as_posix : string -> string.
Variable path_str : string -> string.

Local Abbreviation parseDate := (parseDate strptime).
Local Abbreviation createFile :=
  (createFile strptime Server exportVonBis as_posix path_str).
Local Abbreviation date_accepted := (date_accepted strptime).

(** [parseDate] never raises, and its flag is exactly [date_accepted]. *)
Lemma parseDate_flag (dateS : option string) :
  exists d, outcome (parseDate dateS) = inr (d, date_accepted dateS)
            /\ (date_accepted dateS = false -> d = None)
            /\ forallb (fun ev => negb (is_export ev)) (trace (parseDate dateS))
               = true.
Proof.
  unfold Gui.parseDate, Gui.date_accepted.
  destruct dateS as [s|]; [|exists None; auto].
  destruct (String.eqb_spec s "") as [->|Hne]; [exists None; auto|].
  destruct (strptime s "%d.%m.%Y") as [e|d]; simpl.
  - exists None; auto.
  - exists (Some d). repeat split; auto; discriminate.
Qed.

(** C9. [parseDate] always returns a pair; the date is [None] whenever the
    flag is [False]; the pair is [(None, True)] for [None] and for the empty
    string, [(d, True)] with [d] the date [strptime] returns under
    ['%d.%m.%Y'], and [(None, False)], after an error popup, when
    [strptime] raises on a non-empty input. *)
Theorem parseDate_cases (dateS : option string) :
  (exists d ok, outcome (parseDate dateS) = inr (d, ok)
                /\ (ok = false -> d = None))
  /\ (dateS = None \/ dateS = Some "" ->
      parseDate dateS = ret (None, true))
  /\ (forall s d, dateS = Some s -> s <> "" ->
      strptime s "%d.%m.%Y" = inr d ->
      parseDate dateS = ret (Some d, true))
  /\ (forall s e, dateS = Some s -> s <> "" ->
      strptime s "%d.%m.%Y" = inl e ->
      parseDate dateS =
      ([PopupError ("Fehler beim Parsen des Datums '" +:+ s +:+ "'")],
       inr (None, false))).
Proof.
  split; [|split; [|split]].
  - destruct (parseDate_flag dateS) as (d & Hd & Hnone & _).
    exists d, (date_accepted dateS). auto.
  - intros [->| ->]; reflexivity.
  - intros s d -> Hne Hp. unfold Gui.parseDate.
    rewrite (eqb_false_of_neq _ _ Hne), Hp. reflexivity.
  - intros s e -> Hne Hp. unfold Gui.parseDate.
    rewrite (eqb_false_of_neq _ _ Hne), Hp. reflexivity.
Qed.

Lemma parseDate_accepted (dateS : option string) :
  date_accepted dateS = true ->
  exists d, parseDate dateS = ret (d, true).
Proof.
  unfold Gui.parseDate, Gui.date_accepted.
  destruct dateS as [s|]; [|exists None; reflexivity].
  destruct (s =? "")%string; [exists None; reflexivity|].
  destruct (strptime s "%d.%m.%Y") as [e|d]; [discriminate|].
  exists (Some d). reflexivity.
Qed.

(** What [createFile] does when every guard passes: one call of
    [exportVonBis], on the POSIX form of the file name and the two parsed
    dates, before anything else. *)
Lemma createFile_passes (server : Server) (fileS vonS bisS : option string) :
  date_accepted vonS = true -> date_accepted bisS = true ->
  file_chosen fileS = true ->
  exists f von bis rest,
    fileS = Some f
    /\ parseDate vonS = ret (von, true)
    /\ parseDate bisS = ret (bis, true)
    /\ trace (createFile server fileS vonS bisS)
       = ExportVonBis (as_posix f) von bis :: rest
    /\ forallb (fun ev => negb (is_export ev)) rest = true.
Proof.
  intros Hv Hb Hf.
  destruct fileS as [f|]; [|discriminate]. simpl in Hf.
  apply negb_true_iff in Hf.
  destruct (parseDate_accepted _ Hv) as [von Ev].
  destruct (parseDate_accepted _ Hb) as [bis Eb].
  unfold Gui.createFile. rewrite Ev, Eb. simpl. rewrite Hf.
  exists f, von, bis. unfold call_exportVonBis, lift, emit, bind; simpl.
  destruct (exportVonBis server (as_posix f) von bis) as [e|c]; simpl;
    eexists; repeat split; reflexivity.
Qed.
(** What it does when a guard fails: it returns, having called nothing but
    error popups. *)
Lemma createFile_blocked (server : Server) (fileS vonS bisS : option string) :
  date_accepted vonS && date_accepted bisS && file_chosen fileS = false ->
  outcome (createFile server fileS vonS bisS) = inr tt
  /\ forallb (fun ev => negb (is_export ev))
       (trace (createFile server fileS vonS bisS)) = true.
Proof.
  intros H.
  unfold Gui.createFile, Gui.parseDate, Gui.date_accepted, Gui.file_chosen in *.
  destruct vonS as [v|]; [destruct (v =? "")%string;
    [|destruct (strptime v "%d.%m.%Y")]|];
  (destruct bisS as [b|]; [destruct (b =? "")%string;
    [|destruct (strptime b "%d.%m.%Y")]|]);
  (destruct fileS as [f|]; [destruct (f =? "")%string|]);
  simpl in *; try discriminate; auto.
Qed.

(** C10. [createFile] calls [mengenabweichung.exportVonBis] exactly when
    both date strings are accepted by [parseDate] (empty, or parsed) and
    the file string is neither [None] nor empty; when a check fails it
    returns without raising and without an export. *)
Theorem createFile_exports_iff
    (server : Server) (fileS vonS bisS : option string) :
  (existsb is_export (trace (createFile server fileS vonS bisS)) = true
   <-> date_accepted vonS = true /\ date_accepted bisS = true
       /\ file_chosen fileS = true)
  /\ (existsb is_export (trace (createFile server fileS vonS bisS)) = false ->
      outcome (createFile server fileS vonS bisS) = inr tt).
Proof.
  destruct (date_accepted vonS && date_accepted bisS && file_chosen fileS)
    eqn:G.
  - apply andb_true_iff in G as [G Hf]. apply andb_true_iff in G as [Hv Hb].
    destruct (createFile_passes server fileS vonS bisS Hv Hb Hf)
      as (f & von & bis & rest & _ & _ & _ & Ht & _).
    rewrite Ht. simpl. split; [tauto|discriminate].
  - destruct (createFile_blocked server fileS vonS bisS G) as [Ho Ht].
    assert (Hno : existsb is_export
              (trace (createFile server fileS vonS bisS)) = false).
    { revert Ht. generalize (trace (createFile server fileS vonS bisS)).
      induction l as [|ev l IH]; simpl; [reflexivity|].
      intros H. apply andb_true_iff in H as [H1 H2].
      apply negb_true_iff in H1. rewrite H1. simpl. auto. }
    rewrite Hno. split; [|auto].
    split; [discriminate|].
    intros (Hv & Hb & Hf). rewrite Hv, Hb, Hf in G. discriminate.
Qed.

End MengenabweichungFacts.

(** C9 on three entries of the date box, under the reference reading of
    [strptime]: a date, the empty box, and the 31st of February. *)
Lemma parseDate_cases_witness :
  Gui.parseDate Gui.strptime_model (Some "01.02.2023")
  = Gui.ret (Some (Gui.Datetime 2023 2 1), true)
  /\ Gui.parseDate Gui.strptime_model (Some "")
     = Gui.ret (None, true)
  /\ Gui.parseDate Gui.strptime_model (Some "31.02.2023")
     = ([Gui.PopupError "Fehler beim Parsen des Datums '31.02.2023'"],
        inr (None, false)).
Proof.
  split; [|split].
  - refine (proj1 (proj2 (proj2
      (parseDate_cases Gui.strptime_model (Some "01.02.2023")))) _ _
      eq_refl _ eq_refl).
    discriminate.
  - exact (proj1 (proj2 (parseDate_cases Gui.strptime_model (Some "")))
             (or_intror eq_refl)).
  - refine (proj2 (proj2 (proj2
      (parseDate_cases Gui.strptime_model (Some "31.02.2023")))) _
      (Gui.LibraryError "ValueError") eq_refl _ eq_refl).
    discriminate.
Defined.

(** C10 on a filled form and on a form with a misspelt date, with an
    export that reports 42 records. *)
Lemma createFile_exports_iff_witness :
  let export := fun (_ : unit) (_ : string) (_ _ : option Gui.datetime) =>
    @inr Gui.exn Z 42 in
  let run := Gui.createFile Gui.strptime_model unit export id id tt in
  existsb Gui.is_export
    (Gui.trace (run (Some "abw.xlsx") (Some "01.01.2023") (Some ""))) = true
  /\ Gui.outcome (run (Some "abw.xlsx") (Some "1.13.2023") None) = inr tt.
Proof.
  intros export run. split.
  - exact (proj2 (proj1 (createFile_exports_iff Gui.strptime_model unit
             export id id tt (Some "abw.xlsx") (Some "01.01.2023") (Some "")))
             (conj eq_refl (conj eq_refl eq_refl))).
  - exact (proj2 (createFile_exports_iff Gui.strptime_model unit export id id
             tt (Some "abw.xlsx") (Some "1.13.2023") None) eq_refl).
Defined.

(* ===================================================================== *)
(** * Part IV: properties of the duplication design *)
(* ===================================================================== *)

Section DuplicationFacts.

Import Duplication.

Variable server : Type.
Variable nextNumber : string -> server -> (string + string) * server.
Variable validate :
  list (string * gmap string value) -> string -> gmap string value ->
  option string.
Variable source : list (string * gmap string value).

Local Abbreviation world := (world server).
Local Abbreviation M := (M server).
Local Abbreviation load := (load server nextNumber source).
Local Abbreviation load_relations := (load_relations server nextNumber source).
Local Abbreviation new_fields := (new_fields server nextNumber).
Local Abbreviation materialize := (materialize server validate).
Local Abbreviation duplicate := (duplicate server nextNumber validate source).
Local Abbreviation select := (select source).

(** ** Induction over descriptor and snapshot trees *)

Section DescriptorInduction.
Variable P : descriptor -> Prop.
Hypothesis step : forall ty idf flds rels,
  Forall (fun rel => P (rel_child rel)) rels ->
  P (Descriptor ty idf flds rels).

Fixpoint descriptor_tree_ind (d : descriptor) : P d :=
  match d with
  | Descriptor ty idf flds rels =>
      step ty idf flds rels
        ((fix children (rels : list (relation_of descriptor))
            : Forall (fun rel => P (rel_child rel)) rels :=
            match rels with
            | [] => Forall_nil_2 _
            | rel :: rest =>
                Forall_cons_2 _ rel rest
                  (match rel return P (rel_child rel) with
                   | Relation _ child _ => descriptor_tree_ind child
                   end)
                  (children rest)
            end) rels)
  end.
End DescriptorInduction.

Section SnapshotInduction.
Variable P : snapshot -> Prop.
Hypothesis step : forall ty sid f kids,
  Forall (fun g : string * list snapshot => Forall P g.2) kids ->
  P (Snapshot ty sid f kids).

Fixpoint snapshot_tree_ind (s : snapshot) : P s :=
  match s with
  | Snapshot ty sid f kids =>
      step ty sid f kids
        ((fix groups (gs : list (string * list snapshot))
            : Forall (fun g : string * list snapshot => Forall P g.2) gs :=
            match gs with
            | [] => Forall_nil_2 _
            | g :: rest =>
                Forall_cons_2 _ g rest
                  ((fix each (ks : list snapshot) : Forall P ks :=
                      match ks with
                      | [] => Forall_nil_2 _
                      | k :: ks' =>
                          Forall_cons_2 _ k ks' (snapshot_tree_ind k) (each ks')
                      end) g.2)
                  (groups rest)
            end) kids)
  end.
End SnapshotInduction.

(** ** Congruences of [bind] *)

Lemma bind_run {A B} (m : M A) (k : A -> M B) (w : world) :
  bind server m k w =
  match m w with
  | (inr a, w') => k a w'
  | (inl e, w') => (inl e, w')
  end.
Proof. reflexivity. Qed.

Lemma bind_cong_l {A B} (m1 m2 : M A) (k : A -> M B) (w : world) :
  m1 w = m2 w -> bind server m1 k w = bind server m2 k w.
Proof. intros E. rewrite !bind_run, E. reflexivity. Qed.

Lemma bind_cong_r {A B} (m : M A) (k1 k2 : A -> M B) (w : world) :
  (forall a w', k1 a w' = k2 a w') ->
  bind server m k1 w = bind server m k2 w.
Proof.
  intros E. rewrite !bind_run. destruct (m w) as [[e|a] w']; auto.
Qed.

(** ** The walk of [load], unfolded *)

Lemma load_unfold ty idf flds rels ex ov r (w : world) :
  load (Descriptor ty idf flds rels) ex ov r w =
  bind server (new_fields ty idf flds ov r) (fun f =>
    bind server (load_relations ex (r !!! idf) (f !!! idf) rels) (fun kids =>
      ret server (Snapshot ty (r !!! idf) f kids))) w.
Proof.
  simpl. apply bind_cong_r. intros f w1. apply bind_cong_l.
  clear w. revert w1.
  induction rels as [|[name child fk] rest IH]; intros w; [reflexivity|].
  simpl. destruct (decide (name ∈ ex)); [apply IH|].
  apply bind_cong_r. intros recs w2.
  apply bind_cong_r. intros ks w3.
  apply bind_cong_l, IH.
Qed.

(** ** The steps of one node *)

Lemma new_fields_run ty idf flds ov r (w : world) :
  new_fields ty idf flds ov r w =
  match ov !! idf with
  | Some _ => (inr (ov ∪ copyable flds r), w)
  | None =>
      match nextNumber ty (w_server _ w) with
      | (inr n, sv) =>
          (inr (<[idf := VStr n]> (ov ∪ copyable flds r)),
           World _ sv (w_queries _ w) (w_target _ w))
      | (inl text, sv) =>
          (inl (Failed ty (r !!! idf) (RemoteCallError text)),
           World _ sv (w_queries _ w) (w_target _ w))
      end
  end.
Proof.
  unfold Duplication.new_fields. destruct (ov !! idf); [reflexivity|].
  rewrite bind_run. unfold allocate.
  destruct (nextNumber ty (w_server _ w)) as [[text|n] sv]; reflexivity.
Qed.

(** An override of the plan reaches the new record unchanged. *)
Lemma new_fields_override ty idf flds ov r (w w' : world) f k v :
  new_fields ty idf flds ov r w = (inr f, w') ->
  ov !! k = Some v -> f !! k = Some v.
Proof.
  rewrite new_fields_run. intros H Hk.
  assert (Hb : (ov ∪ copyable flds r) !! k = Some v)
    by (apply lookup_union_Some_l, Hk).
  destruct (ov !! idf) eqn:Hid.
  - injection H as <- _. exact Hb.
  - destruct (nextNumber ty (w_server _ w)) as [[text|n] sv]; [discriminate|].
    injection H as <- _. rewrite lookup_insert_ne; [exact Hb|].
    intros ->. congruence.
Qed.

Lemma new_fields_target ty idf flds ov r (w : world) :
  w_target _ (new_fields ty idf flds ov r w).2 = w_target _ w.
Proof.
  rewrite new_fields_run. destruct (ov !! idf); [reflexivity|].
  destruct (nextNumber ty (w_server _ w)) as [[text|n] sv]; reflexivity.
Qed.

Lemma load_head d ex ov r (w w' : world) s :
  load d ex ov r w = (inr s, w') ->
  snap_type s = bo_type d /\ snap_source_id s = r !!! bo_id d
  /\ exists w1, new_fields (bo_type d) (bo_id d) (bo_fields d) ov r w
                = (inr (snap_fields s), w1).
Proof.
  destruct d as [ty idf flds rels]. rewrite load_unfold, bind_run.
  destruct (new_fields ty idf flds ov r w) as [[e|f] w1] eqn:E;
    [discriminate|].
  rewrite bind_run.
  destruct (load_relations ex (r !!! idf) (f !!! idf) rels w1)
    as [[e|kids] w2]; [discriminate|].
  intros [= <- <-]. simpl. eauto.
Qed.

(** ** Loading succeeds when numbers are available *)

Section Available.

Hypothesis numbers_available :
  forall ty sv, exists n sv', nextNumber ty sv = (inr n, sv').

Lemma new_fields_available ty idf flds ov r (w : world) :
  exists f w', new_fields ty idf flds ov r w = (inr f, w')
               /\ w_target _ w' = w_target _ w.
Proof.
  pose proof (new_fields_target ty idf flds ov r w) as Ht.
  rewrite new_fields_run in *. destruct (ov !! idf); [eauto|].
  destruct (numbers_available ty (w_server _ w)) as (n & sv & E).
  rewrite E in *. eauto.
Qed.

Lemma mapM_load_mirrors ex child fk newid recs :
  (forall ov r (w : world), exists s w',
      load child ex ov r w = (inr s, w')
      /\ w_target _ w' = w_target _ w /\ mirrors source ex child r s) ->
  forall w : world, exists ks w',
    mapM server (load child ex {[fk := newid]}) recs w = (inr ks, w')
    /\ w_target _ w' = w_target _ w
    /\ Forall2 (fun rec c => mirrors source ex child rec c
                            /\ snap_fields c !! fk = Some newid) recs ks.
Proof.
  intros IH. induction recs as [|rec recs IHr]; intros w.
  - exists [], w. repeat split. constructor.
  - destruct (IH {[fk := newid]} rec w) as (s & w1 & E1 & T1 & M1).
    destruct (IHr w1) as (ks & w2 & E2 & T2 & M2).
    exists (s :: ks), w2. simpl. rewrite bind_run, E1, bind_run, E2.
    split; [reflexivity|]. split; [congruence|].
    constructor; [|exact M2]. split; [exact M1|].
    destruct (load_head _ _ _ _ _ _ _ E1) as (_ & _ & w3 & Hf).
    eapply new_fields_override; [exact Hf|]. apply lookup_singleton_eq.
Qed.

Lemma load_mirrors d : forall ex ov r (w : world), exists s w',
  load d ex ov r w = (inr s, w')
  /\ w_target _ w' = w_target _ w /\ mirrors source ex d r s.
Proof.
  induction d as [ty idf flds rels IH] using descriptor_tree_ind.
  intros ex ov r w. rewrite load_unfold, bind_run.
  destruct (new_fields_available ty idf flds ov r w) as (f & w1 & E1 & T1).
  rewrite E1, bind_run.
  assert (Hrels : forall w1 : world, exists kids w2,
    load_relations ex (r !!! idf) (f !!! idf) rels w1 = (inr kids, w2)
    /\ w_target _ w2 = w_target _ w1
    /\ Forall2
        (fun (rel : relation_of descriptor) (g : string * list snapshot) =>
           g.1 = rel_name rel /\
           Forall2
             (fun (rec : gmap string value) (c : snapshot) =>
                mirrors source ex (rel_child rel) rec c /\
                snap_fields c !! rel_fk rel = Some (f !!! idf))
             (select (bo_type (rel_child rel)) (rel_fk rel) (r !!! idf))
             g.2)
        (filter (fun rel => rel_name rel ∉ ex) rels) kids).
  { clear w w1 E1 T1.
    induction rels as [|rel rest IHrest]; intros w1.
    - exists [], w1. repeat split. constructor.
    - apply Forall_cons in IH as [IHrel IH]. specialize (IHrest IH).
      simpl. destruct (decide (rel_name rel ∈ ex)) as [Hin|Hout].
      + rewrite filter_cons_False by (intros H; exact (H Hin)).
        apply IHrest.
      + rewrite filter_cons_True by exact Hout.
        rewrite bind_run. unfold read_dependents at 1. rewrite bind_run.
        match goal with |- context [mapM _ _ ?l ?w] =>
          destruct (mapM_load_mirrors ex (rel_child rel) (rel_fk rel)
                      (f !!! idf) l (IHrel ex) w) as (ks & w2 & E2 & T2 & M2)
        end.
        rewrite E2, bind_run.
        destruct (IHrest w2) as (more & w3 & E3 & T3 & M3). rewrite E3.
        exists ((rel_name rel, ks) :: more), w3.
        split; [reflexivity|]. split; [simpl in T2; congruence|].
        constructor; [split; [reflexivity|exact M2]|exact M3]. }
  destruct (Hrels w1) as (kids & w2 & E2 & T2 & M2). rewrite E2.
  exists (Snapshot ty (r !!! idf) f kids), w2.
  split; [reflexivity|]. split; [congruence|].
  exact (Mirrors source ex (Descriptor ty idf flds rels) r f kids M2).
Qed.

End Available.

(** ** Materialising a snapshot *)

Local Abbreviation grown := (grown server).

Lemma grown_nil (w : world) : grown w [] = w.
Proof.
  destruct w. unfold Duplication.grown. simpl. rewrite app_nil_r. reflexivity.
Qed.

Lemma grown_grown (w : world) ts1 ts2 :
  grown (grown w ts1) ts2 = grown w (ts1 ++ ts2).
Proof. unfold Duplication.grown. simpl. rewrite app_assoc. reflexivity. Qed.

Lemma materialize_unfold ty sid f kids (w : world) :
  materialize (Snapshot ty sid f kids) w =
  bind server (insert server validate ty sid f) (fun _ =>
    iterM server (fun g : string * list snapshot =>
                    iterM server materialize g.2) kids) w.
Proof. reflexivity. Qed.

(** Whatever the outcome, [materialize] only adds records to the target;
    when it returns, it has added the records of the snapshot, parent
    before dependants. *)
Lemma iterM_grows {A} (f : A -> M unit)
    (tr : A -> list (string * gmap string value)) (l : list A) :
  Forall (fun a => forall w : world, exists ts,
            (f a w).2 = grown w ts
            /\ ((f a w).1 = inr tt -> ts = tr a)) l ->
  forall w : world, exists ts,
    (iterM server f l w).2 = grown w ts
    /\ ((iterM server f l w).1 = inr tt -> ts = flat_map tr l).
Proof.
  induction 1 as [|a l Ha _ IH]; intros w; simpl.
  - exists []. rewrite grown_nil. auto.
  - rewrite bind_run. destruct (Ha w) as (ts1 & G1 & R1).
    destruct (f a w) as [[e|[]] w1]; simpl in *.
    + exists ts1. split; [exact G1|discriminate].
    + subst w1. destruct (IH (grown w ts1)) as (ts2 & G2 & R2).
      exists (ts1 ++ ts2)%list.
      rewrite G2, grown_grown. split; [reflexivity|].
      intros H. rewrite (R1 eq_refl), (R2 H). reflexivity.
Qed.

Lemma materialize_grows s : forall w : world, exists ts,
  (materialize s w).2 = grown w ts
  /\ ((materialize s w).1 = inr tt -> ts = records s).
Proof.
  induction s as [ty sid f kids IH] using snapshot_tree_ind.
  intros w. rewrite materialize_unfold, bind_run. unfold insert.
  destruct (validate (w_target _ w) ty f).
  { exists []. rewrite grown_nil. split; [reflexivity|simpl; discriminate]. }
  match goal with |- context [iterM _ ?f ?l ?w] =>
    destruct (iterM_grows f
      (fun g : string * list snapshot => flat_map records g.2) l) with w
      as (ts & G & R)
  end.
  { eapply Forall_impl; [exact IH|]. intros g Hg.
    apply iterM_grows. exact Hg. }
  exists ((ty, f) :: ts). rewrite G. split.
  - unfold Duplication.grown. simpl. rewrite <- app_assoc. reflexivity.
  - intros H. rewrite (R H). reflexivity.
Qed.

Lemma materialize_returns s (w w' : world) :
  materialize s w = (inr tt, w') -> w' = grown w (records s).
Proof.
  intros E. destruct (materialize_grows s w) as (ts & G & R).
  rewrite E in *. simpl in *. rewrite G, (R eq_refl). reflexivity.
Qed.

Lemma iterM_accepted {A} (f : A -> M unit)
    (tr : A -> list (string * gmap string value)) (l : list A) :
  Forall (fun a => forall w : world, f a w = (inr tt, grown w (tr a))) l ->
  forall w : world, iterM server f l w = (inr tt, grown w (flat_map tr l)).
Proof.
  induction 1 as [|a l Ha _ IH]; intros w; simpl.
  - rewrite grown_nil. reflexivity.
  - rewrite bind_run, Ha, IH, grown_grown. reflexivity.
Qed.

Lemma materialize_accepted s :
  (forall t ty f, validate t ty f = None) ->
  forall w : world, materialize s w = (inr tt, grown w (records s)).
Proof.
  intros Hacc.
  induction s as [ty sid f kids IH] using snapshot_tree_ind.
  intros w. rewrite materialize_unfold, bind_run. unfold insert at 1.
  rewrite Hacc.
  rewrite (iterM_accepted _
             (fun g : string * list snapshot => flat_map records g.2)).
  - unfold Duplication.grown. simpl. rewrite <- app_assoc. reflexivity.
  - eapply Forall_impl; [exact IH|]. intros g Hg.
    apply iterM_accepted. exact Hg.
Qed.

Lemma mapM_invariant {A B} (f : A -> M B) (I : world -> world -> Prop)
    (Q : B -> Prop) (l : list A) :
  (forall w, I w w) ->
  (forall w1 w2 w3, I w1 w2 -> I w2 w3 -> I w1 w3) ->
  (forall a w, I w (f a w).2 /\ forall b, (f a w).1 = inr b -> Q b) ->
  forall w, I w (mapM server f l w).2
            /\ forall bs, (mapM server f l w).1 = inr bs -> Forall Q bs.
Proof.
  intros Irefl Itrans Hf. induction l as [|a l IH]; intros w; simpl.
  - split; [apply Irefl|]. intros bs [= <-]. constructor.
  - rewrite bind_run. destruct (Hf a w) as [I1 Q1].
    destruct (f a w) as [[e|b] w1]; simpl in *.
    + split; [exact I1|discriminate].
    + rewrite bind_run. destruct (IH w1) as [I2 Q2].
      destruct (mapM server f l w1) as [[e|bs] w2]; simpl in *.
      * split; [eauto|discriminate].
      * split; [eauto|]. intros ? [= <-]. constructor; auto.
Qed.

(** ** [load] leaves the target alone *)

Lemma load_target d : forall ex ov r (w : world),
  w_target _ (load d ex ov r w).2 = w_target _ w.
Proof.
  induction d as [ty idf flds rels IH] using descriptor_tree_ind.
  intros ex ov r w. rewrite load_unfold, bind_run.
  pose proof (new_fields_target ty idf flds ov r w) as T1.
  destruct (new_fields ty idf flds ov r w) as [[e|f] w1]; simpl in T1;
    [exact T1|].
  rewrite bind_run, <- T1. clear T1 w.
  assert (Hrels : forall w1 : world,
    w_target _ (load_relations ex (r !!! idf) (f !!! idf) rels w1).2
    = w_target _ w1).
  { induction rels as [|rel rest IHrest]; intros w; [reflexivity|].
    apply Forall_cons in IH as [IHrel IH]. specialize (IHrest IH).
    simpl. destruct (decide (rel_name rel ∈ ex)); [apply IHrest|].
    rewrite bind_run. unfold read_dependents at 1. rewrite bind_run.
    match goal with |- context [mapM _ ?f ?l ?w0] =>
      destruct (mapM_invariant f
                  (fun a b : world => w_target _ b = w_target _ a)
                  (fun _ => True) l (fun _ => eq_refl)
                  (fun a b c H1 H2 => eq_trans H2 H1)
                  (fun a w' => conj (IHrel ex _ a w') (fun _ _ => I)) w0)
        as [T2 _];
      destruct (mapM server f l w0) as [[e|ks] w2]
    end; simpl in T2; [exact T2|].
    rewrite bind_run. specialize (IHrest w2).
    destruct (load_relations ex (r !!! idf) (f !!! idf) rest w2)
      as [[e|more] w3]; simpl in *; congruence. }
  specialize (Hrels w1).
  destruct (load_relations ex (r !!! idf) (f !!! idf) rels w1)
    as [[e|kids] w2]; exact Hrels.
Qed.

(** ** Excluded relations *)

Lemma quiet_same name (w w' : world) :
  w_queries _ w' = w_queries _ w -> quiet_about name w w'.
Proof. intros E. exists []. rewrite app_nil_r. auto. Qed.

Lemma quiet_trans name (w1 w2 w3 : world) :
  quiet_about name w1 w2 -> quiet_about name w2 w3 -> quiet_about name w1 w3.
Proof.
  intros (q1 & E1 & F1) (q2 & E2 & F2). exists (q1 ++ q2)%list.
  rewrite E2, E1, app_assoc. split; [reflexivity|].
  apply Forall_app. auto.
Qed.

Lemma quiet_query name q (w : world) :
  reads_relation name q = false ->
  quiet_about name w
    (World _ (w_server _ w) (w_queries _ w ++ [q]) (w_target _ w)).
Proof. intros H. exists [q]. auto. Qed.

Lemma new_fields_queries ty idf flds ov r (w : world) :
  w_queries _ (new_fields ty idf flds ov r w).2 = w_queries _ w.
Proof.
  rewrite new_fields_run. destruct (ov !! idf); [reflexivity|].
  destruct (nextNumber ty (w_server _ w)) as [[text|n] sv]; reflexivity.
Qed.

Section Excluded.

Variable name : string.
Variable ex : gset string.
Hypothesis name_excluded : name ∈ ex.

Lemma load_skips_excluded d : forall ov r (w : world),
  quiet_about name w (load d ex ov r w).2
  /\ forall s, (load d ex ov r w).1 = inr s -> records_of_relation name s = [].
Proof.
  induction d as [ty idf flds rels IH] using descriptor_tree_ind.
  intros ov r w. rewrite load_unfold, bind_run.
  pose proof (new_fields_queries ty idf flds ov r w) as Q1.
  destruct (new_fields ty idf flds ov r w) as [[e|f] w1]; simpl in Q1.
  { split; [apply quiet_same, Q1|simpl; discriminate]. }
  rewrite bind_run.
  assert (Hrels : forall w1 : world,
    quiet_about name w1
      (load_relations ex (r !!! idf) (f !!! idf) rels w1).2
    /\ forall kids,
        (load_relations ex (r !!! idf) (f !!! idf) rels w1).1 = inr kids ->
        flat_map (fun g : string * list snapshot =>
          ((if decide (g.1 = name) then flat_map records g.2 else [])
           ++ flat_map (records_of_relation name) g.2)%list) kids = []).
  { clear w w1 Q1. induction rels as [|rel rest IHrest]; intros w1.
    - simpl. split; [apply quiet_same; reflexivity|]. intros ? [= <-].
      reflexivity.
    - apply Forall_cons in IH as [IHrel IH]. specialize (IHrest IH).
      simpl. destruct (decide (rel_name rel ∈ ex)) as [Hin|Hout];
        [apply IHrest|].
      assert (Hne : rel_name rel <> name)
        by (intros E; apply Hout; rewrite E; exact name_excluded).
      rewrite bind_run. unfold read_dependents at 1 2. rewrite bind_run.
      match goal with |- context [mapM _ ?f ?l ?w] =>
        destruct (mapM_invariant f (quiet_about name)
                    (fun s => records_of_relation name s = []) l
                    (fun w0 => quiet_same name w0 w0 eq_refl)
                    (quiet_trans name) (IHrel _) w) as [I2 Q2];
        destruct (mapM server f l w) as [[e|ks] w2]
      end; simpl in I2, Q2.
      + split; [|simpl; discriminate]. simpl.
        eapply quiet_trans; [|exact I2]. apply quiet_query.
        simpl. apply bool_decide_eq_false. exact Hne.
      + rewrite bind_run. destruct (IHrest w2) as [I3 Q3].
        destruct (load_relations ex (r !!! idf) (f !!! idf) rest w2)
          as [[e|more] w3]; simpl in *.
        * split; [|discriminate].
          eapply quiet_trans; [|exact I3].
          eapply quiet_trans; [|exact I2]. apply quiet_query.
          simpl. apply bool_decide_eq_false. exact Hne.
        * split.
          { eapply quiet_trans; [|exact I3].
            eapply quiet_trans; [|exact I2]. apply quiet_query.
            simpl. apply bool_decide_eq_false. exact Hne. }
          intros ? [= <-]. simpl.
          destruct (decide (rel_name rel = name)) as [E|_]; [contradiction|].
          rewrite (Q3 _ eq_refl), app_nil_r. simpl.
          specialize (Q2 _ eq_refl). clear -Q2.
          induction Q2 as [|k ks Hk _ IHk]; simpl; [reflexivity|].
          rewrite Hk, IHk. reflexivity. }
  destruct (Hrels w1) as [I2 Q2].
  destruct (load_relations ex (r !!! idf) (f !!! idf) rels w1)
    as [[e|kids] w2]; simpl in *.
  - split; [|discriminate].
    eapply quiet_trans; [apply quiet_same, Q1|exact I2].
  - split; [eapply quiet_trans; [apply quiet_same, Q1|exact I2]|].
    intros ? [= <-]. simpl. apply Q2. reflexivity.
Qed.

End Excluded.

(** ** The whole operation *)

Lemma duplicate_run d id p (w : world) :
  duplicate d id p w =
  bind server (read_record server source (bo_type d) (bo_id d) id) (fun r =>
    bind server (load d (plan_excluded p) (plan_fields p) r) (fun s =>
      bind server (materialize s) (fun _ => ret server s))) w.
Proof. reflexivity. Qed.

Lemma select_lookup ty k v r :
  r ∈ select ty k v -> r !! k = Some v.
Proof.
  unfold Duplication.select. intros H.
  apply list_elem_of_fmap in H as ([ty' r'] & -> & H).
  apply list_elem_of_filter in H as [[_ H] _]. exact H.
Qed.

Lemma copyable_lookup flds (r : gmap string value) k :
  copyable flds r !! k = if decide (k ∈ flds) then r !! k else None.
Proof.
  unfold copyable. destruct (decide (k ∈ flds)) as [Hin|Hout].
  - destruct (r !! k) as [v|] eqn:E.
    + apply map_lookup_filter_Some. auto.
    + apply map_lookup_filter_None. left. exact E.
  - apply map_lookup_filter_None. right. intros v _. exact Hout.
Qed.

(** C1. For a descriptor without relations, duplicating a source record
    that exists, on servers that allocate a number when one is asked for
    and accept the record, creates exactly one target record. It holds the
    plan's value for every field the plan overrides, the source's value for
    every other copyable field but the identifier, and nothing for a field
    that is neither copyable, overridden nor the identifier; without an
    override for the identifier field, the identifier is the string
    [nextNumber] returns for the type. *)
Theorem duplicate_flat_record d id p r others (w : world) :
  bo_relations d = [] ->
  select (bo_type d) (bo_id d) id = r :: others ->
  (plan_fields p !! bo_id d = None ->
   exists n sv, nextNumber (bo_type d) (w_server _ w) = (inr n, sv)) ->
  (forall f, validate (w_target _ w) (bo_type d) f = None) ->
  exists f w',
    duplicate d id p w = (inr (Snapshot (bo_type d) id f []), w')
    /\ w_target _ w' = (w_target _ w ++ [(bo_type d, f)])%list
    /\ (forall k v, plan_fields p !! k = Some v -> f !! k = Some v)
    /\ (forall k, k ∈ bo_fields d -> k <> bo_id d ->
         plan_fields p !! k = None -> f !! k = r !! k)
    /\ (forall k, k ∉ bo_fields d -> k <> bo_id d ->
         plan_fields p !! k = None -> f !! k = None)
    /\ (plan_fields p !! bo_id d = None ->
        exists n, (nextNumber (bo_type d) (w_server _ w)).1 = inr n
                  /\ f !! bo_id d = Some (VStr n)).
Proof.
  destruct d as [ty idf flds rels].
  cbn [bo_type bo_id bo_fields bo_relations]. intros -> Hsel Hnum Hval.
  assert (Hid : r !!! idf = id).
  { apply lookup_total_correct, (select_lookup ty).
    rewrite Hsel. apply list_elem_of_here. }
  rewrite duplicate_run, bind_run. unfold read_record at 1.
  cbn [bo_type bo_id bo_fields bo_relations].
  rewrite Hsel, bind_run, load_unfold, bind_run, new_fields_run.
  cbn [w_server w_queries w_target plan_fields].
  set (base := plan_fields p ∪ copyable flds r).
  assert (Hbase_ov : forall k v, plan_fields p !! k = Some v ->
                                 base !! k = Some v).
  { intros k v Hk. apply lookup_union_Some_l, Hk. }
  assert (Hbase_no : forall k, plan_fields p !! k = None ->
            base !! k = if decide (k ∈ flds) then r !! k else None).
  { intros k Hk. unfold base. rewrite lookup_union_r by exact Hk.
    apply copyable_lookup. }
  destruct (plan_fields p !! idf) as [v|] eqn:Hov.
  - rewrite bind_run. simpl. rewrite Hid.
    unfold bind, insert, ret. simpl. rewrite Hval.
    eexists _, _. split; [reflexivity|]. simpl. split; [reflexivity|].
    split; [exact Hbase_ov|]. split; [|split; [|discriminate]].
    + intros k Hin _ Hk. rewrite (Hbase_no k Hk).
      destruct (decide (k ∈ flds)); [reflexivity|contradiction].
    + intros k Hout _ Hk. rewrite (Hbase_no k Hk).
      destruct (decide (k ∈ flds)); [contradiction|reflexivity].
  - destruct (Hnum eq_refl) as (n & sv & En). rewrite En. simpl.
    rewrite bind_run. simpl. rewrite Hid.
    unfold bind, insert, ret. simpl. rewrite Hval.
    eexists _, _. split; [reflexivity|]. simpl. split; [reflexivity|].
    split; [|split; [|split]].
    + intros k v Hk. rewrite lookup_insert_ne by congruence. auto.
    + intros k Hin Hne Hk. rewrite lookup_insert_ne by congruence.
      rewrite (Hbase_no k Hk).
      destruct (decide (k ∈ flds)); [reflexivity|contradiction].
    + intros k Hout Hne Hk. rewrite lookup_insert_ne by congruence.
      rewrite (Hbase_no k Hk).
      destruct (decide (k ∈ flds)); [contradiction|reflexivity].
    + intros _. exists n. split; [reflexivity|]. apply lookup_insert_eq.
Qed.

(** On servers that always allocate and always accept, duplication
    returns a snapshot that mirrors the source, and has created its records
    on the target in depth-first order. *)
Lemma duplicate_mirrors d id p r others (w : world) :
  select (bo_type d) (bo_id d) id = r :: others ->
  (forall ty sv, exists n sv', nextNumber ty sv = (inr n, sv')) ->
  (forall t ty f, validate t ty f = None) ->
  exists s w',
    duplicate d id p w = (inr s, w')
    /\ w_target _ w' = (w_target _ w ++ records s)%list
    /\ mirrors source (plan_excluded p) d r s.
Proof.
  intros Hsel Hnum Hval.
  rewrite duplicate_run, bind_run. unfold read_record at 1.
  rewrite Hsel, bind_run.
  match goal with |- context [load _ _ _ _ ?w0] =>
    destruct (load_mirrors Hnum d (plan_excluded p) (plan_fields p) r w0)
      as (s & w1 & E1 & T1 & M1)
  end.
  rewrite E1, bind_run, (materialize_accepted s Hval).
  exists s, (grown w1 (records s)). split; [reflexivity|].
  split; [|exact M1]. simpl. rewrite T1. reflexivity.
Qed.

(** C7. When the plan excludes a relation, a duplication run, whatever its
    outcome, issues no read for the dependants of that relation; when it
    returns, the target has grown by the records of the snapshot, and none
    of them belongs to the excluded relation, at any depth. *)
Theorem excluded_relation_not_copied d id p name (w : world) :
  name ∈ plan_excluded p ->
  quiet_about name w (duplicate d id p w).2
  /\ forall s, (duplicate d id p w).1 = inr s ->
       w_target _ (duplicate d id p w).2 = (w_target _ w ++ records s)%list
       /\ records_of_relation name s = [].
Proof.
  intros Hname. rewrite duplicate_run, bind_run. unfold read_record.
  set (w0 := World _ (w_server _ w)
               (w_queries _ w ++ [ReadRecord (bo_type d) id]) (w_target _ w)).
  assert (Q0 : quiet_about name w w0) by (apply quiet_query; reflexivity).
  destruct (select (bo_type d) (bo_id d) id) as [|r others].
  { split; [exact Q0|simpl; discriminate]. }
  rewrite bind_run.
  destruct (load_skips_excluded name (plan_excluded p) Hname d
              (plan_fields p) r w0) as [Q1 R1].
  pose proof (load_target d (plan_excluded p) (plan_fields p) r w0)
    as T1.
  destruct (load d (plan_excluded p) (plan_fields p) r w0)
    as [[e|s] w1]; simpl in Q1, R1, T1.
  { split; [eapply quiet_trans; eauto|simpl; discriminate]. }
  rewrite bind_run. destruct (materialize_grows s w1) as (ts & G & R).
  destruct (materialize s w1) as [[e|[]] w2]; simpl in G, R; subst w2.
  - split; [|simpl; discriminate].
    eapply quiet_trans; [exact Q0|]. eapply quiet_trans; [exact Q1|].
    apply quiet_same. reflexivity.
  - simpl. split.
    + eapply quiet_trans; [exact Q0|]. eapply quiet_trans; [exact Q1|].
      apply quiet_same. reflexivity.
    + intros ? [= <-]. rewrite (R eq_refl), T1. auto.
Qed.

End DuplicationFacts.

(** The first level of [mirrors], spelled out. *)
Lemma mirrors_children source ex d r s :
  Duplication.mirrors source ex d r s ->
  Duplication.snap_type s = Duplication.bo_type d
  /\ Duplication.snap_source_id s = r !!! Duplication.bo_id d
  /\ Forall2
      (fun (rel : Duplication.relation_of Duplication.descriptor)
           (g : string * list Duplication.snapshot) =>
         g.1 = Duplication.rel_name rel /\
         Forall2
           (fun (rec : gmap string Duplication.value)
                (c : Duplication.snapshot) =>
              Duplication.snap_type c
              = Duplication.bo_type (Duplication.rel_child rel)
              /\ Duplication.snap_fields c !! Duplication.rel_fk rel
                 = Some (Duplication.snap_fields s !!! Duplication.bo_id d))
           (Duplication.select source
              (Duplication.bo_type (Duplication.rel_child rel))
              (Duplication.rel_fk rel) (r !!! Duplication.bo_id d))
           g.2)
      (filter (fun rel => Duplication.rel_name rel ∉ ex)
         (Duplication.bo_relations d))
      (Duplication.snap_children s).
Proof.
  intros H. inversion H as [d' r' f kids Hk]; subst. simpl.
  split; [reflexivity|]. split; [reflexivity|].
  eapply Forall2_impl; [exact Hk|]. intros rel g [Hn Hg].
  split; [exact Hn|].
  eapply Forall2_impl; [exact Hg|]. intros rec c [Hm Hfk].
  split; [|exact Hfk].
  inversion Hm; reflexivity.
Qed.

(** C2. On servers that always allocate and always accept, duplicating an
    existing source record returns a snapshot and has created its records
    on the target in depth-first order, parent before dependants. For each
    relation the plan does not exclude, in the descriptor's order, the
    snapshot holds one dependent record per dependent record of the source,
    of the child type and with its foreign key equal to the new parent
    identifier; the same holds below every dependent record ([mirrors]).
    In the worked example the target receives the article with identifier
    "A200" and description "Widget", and its two lines with "A200" as
    parent. *)
Theorem duplicate_dependents :
  (forall server nextNumber validate source d id p r others
          (w : Duplication.world server),
     Duplication.select source (Duplication.bo_type d) (Duplication.bo_id d)
       id = r :: others ->
     (forall ty sv, exists n sv', nextNumber ty sv = (inr n, sv')) ->
     (forall t ty f, validate t ty f = None) ->
     exists s w',
       Duplication.duplicate server nextNumber validate source d id p w
       = (inr s, w')
       /\ Duplication.w_target server w'
          = (Duplication.w_target server w ++ Duplication.records s)%list
       /\ Duplication.mirrors source (Duplication.plan_excluded p)
            d r s
       /\ Forall2
           (fun (rel : Duplication.relation_of Duplication.descriptor)
                (g : string * list Duplication.snapshot) =>
              g.1 = Duplication.rel_name rel /\
              Forall2
                (fun (rec : gmap string Duplication.value)
                     (c : Duplication.snapshot) =>
                   Duplication.snap_type c
                   = Duplication.bo_type (Duplication.rel_child rel)
                   /\ Duplication.snap_fields c !! Duplication.rel_fk rel
                      = Some (Duplication.snap_fields s
                                !!! Duplication.bo_id d))
                (Duplication.select source
                   (Duplication.bo_type (Duplication.rel_child rel))
                   (Duplication.rel_fk rel) id)
                g.2)
           (filter (fun rel => Duplication.rel_name rel
                               ∉ Duplication.plan_excluded p)
              (Duplication.bo_relations d))
           (Duplication.snap_children s))
  /\ Duplication.w_target N
       (Duplication.example_duplicate Duplication.article
          Duplication.example_plan).2
     = [ ("article", {[ "id" := Duplication.VStr "A200";
                        "desc" := Duplication.VStr "Widget" ]});
         ("bom_line", {[ "line" := Duplication.VStr "bom_line-1";
                         "parent" := Duplication.VStr "A200";
                         "part" := Duplication.VStr "bolt";
                         "qty" := Duplication.VNum 4 ]});
         ("bom_line", {[ "line" := Duplication.VStr "bom_line-2";
                         "parent" := Duplication.VStr "A200";
                         "part" := Duplication.VStr "nut";
                         "qty" := Duplication.VNum 8 ]}) ].
Proof.
  split; [|vm_compute; reflexivity].
  intros server nextNumber validate source d id p r others w Hsel Hnum Hval.
  destruct (duplicate_mirrors server nextNumber validate source d id p r
              others w Hsel Hnum Hval) as (s & w' & E & T & Hm).
  exists s, w'. split; [exact E|]. split; [exact T|]. split; [exact Hm|].
  assert (Hid : r !!! Duplication.bo_id d = id).
  { apply lookup_total_correct,
      (select_lookup source (Duplication.bo_type d)).
    rewrite Hsel. apply list_elem_of_here. }
  rewrite <- Hid.
  exact (proj2 (proj2 (mirrors_children _ _ _ _ _ Hm))).
Qed.

(** C1 on the article without its relation, under a plan that overrides
    nothing: the description is copied, the field outside the copyable list
    is not, and the identifier is the number the counter hands out. *)
Lemma duplicate_flat_record_witness :
  exists f w',
    Duplication.example_duplicate Duplication.plain_article
      (Duplication.Plan ∅ ∅)
    = (inr (Duplication.Snapshot "article" (Duplication.VStr "A100") f []),
       w')
    /\ Duplication.w_target N w' = [("article", f)]
    /\ f !! "desc" = Some (Duplication.VStr "Widget")
    /\ f !! "upddate" = None
    /\ f !! "id" = Some (Duplication.VStr "article-1").
Proof.
  destruct (duplicate_flat_record N Duplication.counter_nextNumber
              Duplication.accept_all Duplication.example_source
              Duplication.plain_article (Duplication.VStr "A100")
              (Duplication.Plan ∅ ∅) Duplication.widget []
              Duplication.start eq_refl
              ltac:(vm_compute; reflexivity)
              (fun _ => ex_intro _ _ (ex_intro _ _ eq_refl))
              (fun _ => eq_refl))
    as (f & w' & E & T & _ & Hcp & Hno & Hid).
  exists f, w'. split; [exact E|]. split; [exact T|].
  split; [|split].
  - rewrite (Hcp "desc"); [vm_compute; reflexivity| | |].
    + apply list_elem_of_In. simpl. auto.
    + discriminate.
    + reflexivity.
  - apply (Hno "upddate"); [|discriminate|reflexivity].
    intros H. apply list_elem_of_In in H. simpl in H.
    destruct H as [H|[H|[]]]; discriminate.
  - destruct (Hid eq_refl) as (n & En & Hn).
    vm_compute in En. injection En as <-. exact Hn.
Defined.

(** C2 on the worked example. *)
Lemma duplicate_dependents_witness :
  Duplication.select Duplication.example_source "article" "id"
    (Duplication.VStr "A100") = [Duplication.widget]
  /\ exists s w',
      Duplication.example_duplicate Duplication.article
        Duplication.example_plan = (inr s, w')
      /\ Duplication.w_target N w' = Duplication.records s
      /\ Duplication.mirrors Duplication.example_source ∅
           Duplication.article Duplication.widget s.
Proof.
  assert (Hsel : Duplication.select Duplication.example_source
                   (Duplication.bo_type Duplication.article)
                   (Duplication.bo_id Duplication.article)
                   (Duplication.VStr "A100") = [Duplication.widget])
    by (vm_compute; reflexivity).
  split; [exact Hsel|].
  destruct (proj1 duplicate_dependents N Duplication.counter_nextNumber
              Duplication.accept_all Duplication.example_source
              Duplication.article (Duplication.VStr "A100")
              Duplication.example_plan Duplication.widget []
              Duplication.start Hsel
              (fun ty sv => ex_intro _ _ (ex_intro _ _ eq_refl))
              (fun _ _ _ => eq_refl))
    as (s & w' & E & T & Hm & _).
  exists s, w'. split; [exact E|]. split; [exact T|exact Hm].
Defined.

(** C7 on the worked example, with the bill of materials excluded: no read
    of its lines, and the article is the only record created. *)
Lemma excluded_relation_not_copied_witness :
  "bom" ∈ Duplication.plan_excluded Duplication.example_plan_without_bom
  /\ Duplication.quiet_about "bom" Duplication.start
       (Duplication.example_duplicate Duplication.article
          Duplication.example_plan_without_bom).2
  /\ (forall s,
        (Duplication.example_duplicate Duplication.article
           Duplication.example_plan_without_bom).1 = inr s ->
        Duplication.records_of_relation "bom" s = [])
  /\ Duplication.w_target N
       (Duplication.example_duplicate Duplication.article
          Duplication.example_plan_without_bom).2
     = [ ("article", {[ "id" := Duplication.VStr "A200";
                        "desc" := Duplication.VStr "Widget" ]}) ].
Proof.
  assert (Hin : "bom" ∈ Duplication.plan_excluded
                          Duplication.example_plan_without_bom)
    by (simpl; apply elem_of_singleton_2; reflexivity).
  split; [exact Hin|].
  destruct (excluded_relation_not_copied N Duplication.counter_nextNumber
              Duplication.accept_all Duplication.example_source
              Duplication.article (Duplication.VStr "A100")
              Duplication.example_plan_without_bom "bom" Duplication.start
              Hin) as [Hq Hs].
  split; [exact Hq|]. split; [|vm_compute; reflexivity].
  intros s E. exact (proj2 (Hs s E)).
Defined.

(* ===================================================================== *)
(** * Part V: further properties of the example scripts *)
(* ===================================================================== *)

(** ** [prettyPrintSQL] and its repair of string constants *)

Section FixStringConstants.

Import Gui CompleteSqlMain.

(** The equations of [fix_string_constants], with the tests spelled out. *)
Lemma fix_string_constants_cons (c : ascii) (rest : string) :
  fix_string_constants (String c rest) =
  if (c =? "N")%char then
    match rest with
    | String d (String e rest') =>
        if (d =? " ")%char && (e =? "'")%char
        then String "N" (String "'" (fix_string_constants rest'))
        else String c (fix_string_constants rest)
    | _ => String c (fix_string_constants rest)
    end
  else String c (fix_string_constants rest).
Proof.
  destruct c as [[] [] [] [] [] [] [] []]; try reflexivity.
  destruct rest as [|d rest]; [reflexivity|].
  destruct d as [[] [] [] [] [] [] [] []]; try reflexivity;
    try (destruct rest; reflexivity).
  destruct rest as [|e rest]; [reflexivity|].
  destruct e as [[] [] [] [] [] [] [] []]; reflexivity.
Qed.

Lemma occurs_gap_nil : ~ occurs "N '" "".
Proof.
  intros (pre & post & H). destruct pre; discriminate.
Qed.

Lemma occurs_gap_cons (c : ascii) (t : string) :
  occurs "N '" (String c t) <->
  starts_with_gap (String c t) = true \/ occurs "N '" t.
Proof.
  split.
  - intros (pre & post & H). destruct pre as [|p pre].
    + left. simpl in H. injection H as -> ->. reflexivity.
    + right. simpl in H. injection H as _ ->. exists pre, post. reflexivity.
  - intros [H|(pre & post & ->)].
    + destruct t as [|b [|d u]]; try discriminate. simpl in H.
      apply andb_true_iff in H as [H Hd]. apply andb_true_iff in H as [Hc Hb].
      apply Ascii.eqb_eq in Hc, Hb, Hd. subst.
      exists "", u. reflexivity.
    + exists (String c pre), post. reflexivity.
Qed.

Lemma fix_string_constants_gap (c : ascii) (rest : string) :
  starts_with_gap (String c rest) = true ->
  exists rest',
    rest = String " " (String "'" rest')
    /\ fix_string_constants (String c rest)
       = String "N" (String "'" (fix_string_constants rest')).
Proof.
  intros H. destruct rest as [|b [|d u]]; try discriminate. simpl in H.
  apply andb_true_iff in H as [H Hd]. apply andb_true_iff in H as [Hc Hb].
  apply Ascii.eqb_eq in Hc, Hb, Hd. subst. exists u. split; reflexivity.
Qed.

Lemma fix_string_constants_no_gap (c : ascii) (rest : string) :
  starts_with_gap (String c rest) = false ->
  fix_string_constants (String c rest)
  = String c (fix_string_constants rest).
Proof.
  intros H. rewrite fix_string_constants_cons.
  destruct (c =? "N")%char eqn:Hc; [|reflexivity].
  destruct rest as [|b [|d u]]; try reflexivity.
  simpl in H. rewrite Hc in H. simpl in H. rewrite H. reflexivity.
Qed.

(** The repair keeps the first character. *)
Lemma fix_string_constants_head (s : string) (c : ascii) (t : string) :
  fix_string_constants s = String c t -> exists t', s = String c t'.
Proof.
  destruct s as [|a rest]; [discriminate|].
  destruct (starts_with_gap (String a rest)) eqn:G.
  - destruct (fix_string_constants_gap a rest G) as (u & -> & ->).
    simpl in G. apply andb_true_iff in G as [G _].
    apply andb_true_iff in G as [G _]. apply Ascii.eqb_eq in G. subst.
    intros [= <- _]. eauto.
  - rewrite (fix_string_constants_no_gap a rest G). intros [= <- _]. eauto.
Qed.

Lemma starts_with_gap_repaired (c : ascii) (rest : string) :
  starts_with_gap (String c (fix_string_constants rest)) = true ->
  starts_with_gap (String c rest) = true.
Proof.
  intros H.
  destruct (fix_string_constants rest) as [|b [|d u]] eqn:E;
    try discriminate.
  simpl in H.
  apply andb_true_iff in H as [H Hd]. apply andb_true_iff in H as [Hc Hb].
  apply Ascii.eqb_eq in Hc, Hb, Hd. subst.
  destruct (fix_string_constants_head _ _ _ E) as (r1 & ->).
  rewrite fix_string_constants_no_gap in E
    by (destruct r1 as [|? [|? ?]]; reflexivity).
  injection E as E.
  destruct (fix_string_constants_head _ _ _ E) as (r2 & ->).
  reflexivity.
Qed.

Lemma fix_string_constants_clean_bounded (n : nat) : forall s : string,
  (String.length s <= n)%nat -> ~ occurs "N '" (fix_string_constants s).
Proof.
  induction n as [n IH] using lt_wf_ind. intros s Hlen.
  destruct s as [|c rest]; [exact occurs_gap_nil|].
  destruct (starts_with_gap (String c rest)) eqn:G.
  - destruct (fix_string_constants_gap c rest G) as (u & -> & ->).
    intros H. apply occurs_gap_cons in H as [H|H].
    { destruct (fix_string_constants u); discriminate. }
    apply occurs_gap_cons in H as [H|H].
    { destruct (fix_string_constants u) as [|? [|? ?]]; discriminate. }
    simpl in Hlen. apply (IH (String.length u)) in H; [exact H|lia|lia].
  - rewrite (fix_string_constants_no_gap c rest G).
    intros H. apply occurs_gap_cons in H as [H|H].
    + apply starts_with_gap_repaired in H. congruence.
    + simpl in Hlen. apply (IH (String.length rest)) in H; [exact H|lia|lia].
Qed.

Lemma fix_string_constants_clean (s : string) :
  ~ occurs "N '" (fix_string_constants s).
Proof. exact (fix_string_constants_clean_bounded _ s (le_n _)). Qed.

Lemma fix_string_constants_unchanged (s : string) :
  ~ occurs "N '" s -> fix_string_constants s = s.
Proof.
  induction s as [|c rest IH]; [reflexivity|]. intros H.
  destruct (starts_with_gap (String c rest)) eqn:G.
  - exfalso. apply H, occurs_gap_cons. left. exact G.
  - rewrite (fix_string_constants_no_gap c rest G), IH; [reflexivity|].
    intros H'. apply H, occurs_gap_cons. right. exact H'.
Qed.

End FixStringConstants.

Section PrettyPrintMore.

Import Gui CompleteSqlMain.

Variable sqlfmt_format_string : string -> exn + string.
Variable sqlparse_format_reindent : string -> exn + string.
Variable sqlparse_format_aligned : string -> exn + string.

Local Abbreviation prettyPrintSQL :=
  (prettyPrintSQL sqlfmt_format_string sqlparse_format_reindent
     sqlparse_format_aligned).

(** X1. [prettyPrintSQL] raises exactly when its format names a formatter
    and that formatter raises on the SQL; whatever the formatter raised,
    the exception that leaves [prettyPrintSQL] is the [NameError] of the
    handler, so the SQL is never returned as a fallback. *)
Theorem prettyPrintSQL_raises (format sql : string) :
  (forall e, prettyPrintSQL format sql = inl e -> e = NameError "e")
  /\ ((exists e, prettyPrintSQL format sql = inl e) <->
      (format = "sqlfmt" /\ exists e, sqlfmt_format_string sql = inl e)
      \/ (format = "sqlparse-2"
          /\ exists e, sqlparse_format_reindent sql = inl e)
      \/ (format = "sqlparse"
          /\ exists e, sqlparse_format_aligned sql = inl e)).
Proof.
  unfold Gui.prettyPrintSQL, prettyPrintSQL_body. split.
  - intros e.
    destruct (format =? "sqlfmt")%string;
      [destruct (sqlfmt_format_string sql); congruence|].
    destruct (format =? "sqlparse-2")%string;
      [destruct (sqlparse_format_reindent sql); congruence|].
    destruct (format =? "sqlparse")%string;
      [destruct (sqlparse_format_aligned sql); congruence|].
    discriminate.
  - destruct (String.eqb_spec format "sqlfmt") as [->|N1].
    { destruct (sqlfmt_format_string sql) as [e|p].
      - split; [intros _; left; eauto|intros _; eauto].
      - split; [intros [e H]; discriminate|].
        intros [[_ [e H]]|[[H _]|[H _]]]; discriminate. }
    destruct (String.eqb_spec format "sqlparse-2") as [->|N2].
    { destruct (sqlparse_format_reindent sql) as [e|p].
      - split; [intros _; right; left; eauto|intros _; eauto].
      - split; [intros [e H]; discriminate|].
        intros [[H _]|[[_ [e H]]|[H _]]]; discriminate. }
    destruct (String.eqb_spec format "sqlparse") as [->|N3].
    { destruct (sqlparse_format_aligned sql) as [e|p].
      - split; [intros _; right; right; eauto|intros _; eauto].
      - split; [intros [e H]; discriminate|].
        intros [[H _]|[[H _]|[_ [e H]]]]; discriminate. }
    split; [intros [e H]; discriminate|].
    intros [[H _]|[[H _]|[H _]]]; contradiction.
Qed.

(** X2. What [prettyPrintSQL] returns for the format "sqlfmt" contains no
    [N], space, quote: every such place of the formatter's output has lost
    its space. Output of the formatter without such a place is returned as
    it is. *)
Theorem prettyPrintSQL_sqlfmt_constants (sql out : string) :
  prettyPrintSQL "sqlfmt" sql = inr out ->
  ~ occurs "N '" out
  /\ exists p, sqlfmt_format_string sql = inr p
               /\ (~ occurs "N '" p -> out = p).
Proof.
  unfold Gui.prettyPrintSQL, prettyPrintSQL_body. simpl.
  destruct (sqlfmt_format_string sql) as [e|p]; [discriminate|].
  intros [= <-]. split; [apply fix_string_constants_clean|].
  exists p. split; [reflexivity|]. apply fix_string_constants_unchanged.
Qed.

End PrettyPrintMore.

(** X2 on a formatter that leaves a space after each [N]. *)
Lemma prettyPrintSQL_sqlfmt_constants_witness :
  let spaced := fun _ : string =>
    @inr Gui.exn string "select N 'a', N 'b' from t" in
  let missing := fun _ : string =>
    @inl Gui.exn string (Gui.NameError "sqlparse") in
  Gui.prettyPrintSQL spaced missing missing "sqlfmt" "select 1"
  = inr "select N'a', N'b' from t"
  /\ ~ CompleteSqlMain.occurs "N '" "select N'a', N'b' from t".
Proof.
  intros spaced missing.
  assert (E : Gui.prettyPrintSQL spaced missing missing "sqlfmt" "select 1"
              = inr "select N'a', N'b' from t") by reflexivity.
  split; [exact E|].
  exact (proj1 (prettyPrintSQL_sqlfmt_constants spaced missing missing
                  "select 1" "select N'a', N'b' from t" E)).
Defined.

(** ** The loop of [complete_sql.pyw] *)

Section CompleteSqlMainFacts.

Import Gui CompleteSqlMain.

Local Open Scope list_scope.

Variable Desc : Type.
Context `{desc_eq : EqDecision Desc}.
Variable Conn : Type.
Variable connect : Desc -> exn + Conn.
Variable completeSQL : Conn -> string -> exn + string.
Variable truthy_desc : Desc -> bool.
Variable truthy_conn : Conn -> bool.
Variable exn_str : exn -> string.
Variable sqlfmt_format_string : string -> exn + string.
Variable sqlparse_format_reindent : string -> exn + string.
Variable sqlparse_format_aligned : string -> exn + string.

Local Abbreviation prettyPrintSQL :=
  (prettyPrintSQL sqlfmt_format_string sqlparse_format_reindent
     sqlparse_format_aligned).
Local Abbreviation select_server :=
  (select_server Desc Conn connect truthy_desc).
Local Abbreviation complete :=
  (complete Desc Conn connect completeSQL truthy_desc truthy_conn
     sqlfmt_format_string sqlparse_format_reindent sqlparse_format_aligned).
Local Abbreviation on_complete :=
  (on_complete Desc Conn connect completeSQL truthy_desc truthy_conn exn_str
     sqlfmt_format_string sqlparse_format_reindent sqlparse_format_aligned).
Local Abbreviation handle :=
  (handle Desc Conn connect completeSQL truthy_desc truthy_conn exn_str
     sqlfmt_format_string sqlparse_format_reindent sqlparse_format_aligned).
Local Abbreviation main_loop :=
  (main_loop Desc Conn connect completeSQL truthy_desc truthy_conn exn_str
     sqlfmt_format_string sqlparse_format_reindent sqlparse_format_aligned).
Local Abbreviation main :=
  (main Desc Conn connect completeSQL truthy_desc truthy_conn exn_str
     sqlfmt_format_string sqlparse_format_reindent sqlparse_format_aligned).

(** What the output box and the popup show for a result of the [try]
    block. *)
Local Abbreviation shown res :=
  (match res with
   | inr sqlOut => [Update "output" sqlOut]
   | inl e =>
       [PopupTraceback "Fehler bei Vervollständigung" e;
        Update "output" ("ERROR: " +:+ exn_str e)]
   end : list (action Desc Conn)).

Lemma input_nonempty (s : string) : s <> "" -> (s =? "")%string = false.
Proof. intros H. now apply String.eqb_neq. Qed.

(** X3. When [connect] raises for a newly selected system, the turn shows
    the error and keeps the server object of the turn before, but records
    the new selection as current. The next completion with the same
    selection therefore does not call [connect] again: it sends the SQL to
    the server object kept, uses the input as it is when that is [None],
    and fails on the unassigned local otherwise. *)
Theorem failed_connect_is_not_retried
    (st : locals Desc Conn) (d : Desc) (e : exn) (r1 r2 : reading Desc) :
  oldSys st <> Some (System d) -> truthy_desc d = true ->
  connect d = inl e ->
  r_input r1 <> "" -> r_sysenv r1 = System d ->
  r_input r2 <> "" -> r_sysenv r2 = System d ->
  (on_complete st r1).1 = Connect d :: shown (inl e : exn + string)
  /\ (on_complete st r1).2 = Locals (Some (System d)) (server st)
  /\ (forall d', ~ In (Connect d') (on_complete (on_complete st r1).2 r2).1)
  /\ match server st with
     | Bound (Some c) =>
         truthy_conn c = true ->
         exists rest,
           (on_complete (on_complete st r1).2 r2).1
           = CompleteSQL c (r_input r2) :: rest
     | Bound None =>
         (on_complete (on_complete st r1).2 r2).1
         = shown (prettyPrintSQL (r_format r2) (r_input r2))
     | Unbound =>
         (on_complete (on_complete st r1).2 r2).1
         = shown (inl (NameError "server") : exn + string)
     end.
Proof.
  intros Hold Ht Hc Hi1 Hs1 Hi2 Hs2.
  assert (E1 : on_complete st r1
               = (Connect d :: shown (inl e : exn + string),
                  Locals (Some (System d)) (server st))).
  { unfold CompleteSqlMain.on_complete, CompleteSqlMain.complete,
      CompleteSqlMain.select_server.
    rewrite (input_nonempty _ Hi1), Hs1.
    destruct (decide (Some (System d) = oldSys st)) as [E|_];
      [congruence|].
    rewrite Ht, Hc. reflexivity. }
  rewrite E1. cbn [fst snd]. split; [reflexivity|]. split; [reflexivity|].
  unfold CompleteSqlMain.on_complete, CompleteSqlMain.complete,
    CompleteSqlMain.select_server.
  rewrite (input_nonempty _ Hi2), Hs2. cbn [oldSys server].
  destruct (decide (Some (System d) = Some (System d))) as [_|N];
    [|congruence].
  cbn [server app].
  destruct (server st) as [|[c|]].
  - split; [|reflexivity]. intros d' H; simpl in H; intuition congruence.
  - destruct (truthy_conn c).
    + destruct (completeSQL c (r_input r2)) as [e'|out].
      * simpl. split; [|eauto].
        intros d' H; simpl in H; intuition congruence.
      * destruct (prettyPrintSQL (r_format r2) out); simpl;
          (split; [|eauto]); intros d' H; intuition congruence.
    + split; [|discriminate].
      destruct (prettyPrintSQL (r_format r2) (r_input r2)); simpl;
        intros d' H; intuition congruence.
  - destruct (prettyPrintSQL (r_format r2) (r_input r2)); simpl;
      (split; [|reflexivity]); intros d' H; intuition congruence.
Qed.

(** *** With "-" selected no server is contacted *)

Local Abbreviation dash_means_none st :=
  (oldSys st = Some NoSystem -> server st = Bound (None : option Conn)).

Lemma select_server_dash (st : locals Desc Conn) (sys : sysenv Desc) :
  dash_means_none st -> dash_means_none (select_server st sys).1.2.
Proof.
  intros Hst. unfold CompleteSqlMain.select_server.
  destruct (decide (Some sys = oldSys st)); [exact Hst|].
  destruct sys as [|d]; [reflexivity|].
  destruct (truthy_desc d); [|discriminate].
  destruct (connect d); discriminate.
Qed.

Lemma complete_state (st : locals Desc Conn) (r : reading Desc) :
  (complete st r).1.2 = st
  \/ (complete st r).1.2 = (select_server st (r_sysenv r)).1.2.
Proof.
  unfold CompleteSqlMain.complete.
  destruct (r_input r =? "")%string; [left; reflexivity|]. right.
  destruct (select_server st (r_sysenv r)) as [[t st1] [e|]];
    [reflexivity|]. cbn [fst snd].
  destruct (server st1) as [|[c|]]; try reflexivity.
  destruct (truthy_conn c); [|reflexivity].
  destruct (completeSQL c (r_input r)); reflexivity.
Qed.

Lemma on_complete_state (st : locals Desc Conn) (r : reading Desc) :
  (on_complete st r).2 = (complete st r).1.2.
Proof.
  unfold CompleteSqlMain.on_complete.
  destruct (complete st r) as [[t st1] [e|out]]; reflexivity.
Qed.

Lemma handle_state (st : locals Desc Conn) (r : reading Desc) :
  (handle st r).1.2 = st \/ (handle st r).1.2 = (complete st r).1.2.
Proof.
  unfold CompleteSqlMain.handle.
  destruct (r_event r) as [ev|]; [|left; reflexivity].
  repeat (match goal with |- context [if ?b then _ else _] =>
            destruct b; [left; reflexivity|] end).
  destruct (ev =? "Vervollständigen")%string; [|left; reflexivity].
  right. rewrite <- on_complete_state.
  destruct (on_complete st r). reflexivity.
Qed.

Lemma handle_dash (st : locals Desc Conn) (r : reading Desc) :
  dash_means_none st -> dash_means_none (handle st r).1.2.
Proof.
  intros Hst. destruct (handle_state st r) as [-> | ->]; [exact Hst|].
  destruct (complete_state st r) as [-> | ->]; [exact Hst|].
  apply select_server_dash, Hst.
Qed.

Lemma main_loop_dash (rs : list (reading Desc)) :
  forall st : locals Desc Conn,
    dash_means_none st -> dash_means_none (main_loop st rs).2.
Proof.
  induction rs as [|r rest IH]; intros st Hst; [exact Hst|].
  simpl. pose proof (handle_dash st r Hst) as H1.
  destruct (handle st r) as [[t st1] go]. cbn [fst snd] in H1.
  destruct go; [|exact H1].
  specialize (IH st1 H1). destruct (main_loop st1 rest). exact IH.
Qed.

(** X4. In the state any sequence of turns leaves behind, a turn with the
    entry "-" selected contacts no server: it calls neither [connect] nor
    [completeSQL]. A completion of non-empty input then shows the input as
    [prettyPrintSQL] formats it. *)
Theorem dash_contacts_no_server
    (rs : list (reading Desc)) (r : reading Desc) :
  r_sysenv r = NoSystem ->
  forallb (fun a => negb (contacts_server a)) (handle (main rs).2 r).1.1
  = true
  /\ (r_event r = Some "Vervollständigen" -> r_input r <> "" ->
      (handle (main rs).2 r).1.1
      = shown (prettyPrintSQL (r_format r) (r_input r))).
Proof.
  intros Hsys.
  assert (Hst : dash_means_none (main rs).2)
    by (apply main_loop_dash; discriminate).
  destruct (main rs).2 as [old srv]. cbn [oldSys server] in Hst.
  assert (Hc : forall t st1 res,
            complete (Locals old srv) r = (t, st1, res) ->
            (r_input r <> "" ->
             t = [] /\ res = prettyPrintSQL (r_format r) (r_input r))
            /\ forallb (fun a : action Desc Conn => negb (contacts_server a))
                 t = true).
  { unfold CompleteSqlMain.complete, CompleteSqlMain.select_server.
    rewrite Hsys. cbn [oldSys server].
    destruct (r_input r =? "")%string eqn:Hin.
    { intros t st1 res [= <- <- <-]. split; [|reflexivity].
      intros H. apply String.eqb_eq in Hin. contradiction. }
    destruct (decide (Some NoSystem = old)) as [E|_].
    - rewrite (Hst (eq_sym E)).
      intros t st1 res [= <- <- <-]. auto.
    - intros t st1 res [= <- <- <-]. auto. }
  unfold CompleteSqlMain.handle, CompleteSqlMain.on_complete.
  destruct (complete (Locals old srv) r) as [[t st1] res] eqn:E.
  destruct (Hc t st1 res eq_refl) as [Hne Hall].
  split.
  - destruct (r_event r) as [ev|]; [|reflexivity].
    repeat (match goal with |- context [if ?b then _ else _] =>
              destruct b; [try reflexivity|] end).
    + unfold on_export. destruct (r_clear r); reflexivity.
    + destruct res; cbn [fst]; rewrite forallb_app, Hall; reflexivity.
    + reflexivity.
  - intros -> Hin. destruct (Hne Hin) as [-> ->]. simpl.
    destruct (prettyPrintSQL (r_format r) (r_input r)); reflexivity.
Qed.

(** *** Where the server object of a completion comes from *)

Local Abbreviation known seen c :=
  (exists j d, (seen : list (action Desc Conn)) !! j = Some (Connect d)
               /\ connect d = inr c).

Lemma known_app_l (seen more : list (action Desc Conn)) (c : Conn) :
  known seen c -> known (seen ++ more) c.
Proof.
  intros (j & d & Hj & Hd). exists j, d. split; [|exact Hd].
  apply lookup_app_l_Some, Hj.
Qed.

Lemma known_connected (seen rest : list (action Desc Conn)) d (c : Conn) :
  connect d = inr c -> known (seen ++ Connect d :: rest) c.
Proof.
  intros Hd. exists (length seen), d. split; [|exact Hd].
  apply list_lookup_middle. reflexivity.
Qed.

Ltac at_position H :=
  simpl in H;
  repeat match type of H with
         | (_ :: _) !! ?i = Some _ =>
             destruct i as [|i]; simpl in H; [try discriminate H|]
         | [] !! _ = Some _ => discriminate H
         end.

(** One completion: a server object that is sent SQL, and the one the
    turn leaves in [server], was in [server] before or has just been
    returned by [connect]. *)
Lemma on_complete_provenance
    (st : locals Desc Conn) (r : reading Desc)
    (seen : list (action Desc Conn)) :
  (forall c, server st = Bound (Some c) -> known seen c) ->
  (forall i c sql,
     (on_complete st r).1 !! i = Some (CompleteSQL c sql) ->
     known (seen ++ take i (on_complete st r).1) c)
  /\ (forall c, server (on_complete st r).2 = Bound (Some c) ->
        known (seen ++ (on_complete st r).1) c).
Proof.
  intros Hst.
  unfold CompleteSqlMain.on_complete, CompleteSqlMain.complete,
    CompleteSqlMain.select_server.
  destruct (r_input r =? "")%string.
  { cbn [fst snd]. split.
    - intros i c sql H. at_position H.
    - intros c H. apply known_app_l, Hst, H. }
  destruct (decide (Some (r_sysenv r) = oldSys st)) as [_|_].
  - destruct (server st) as [|[c0|]] eqn:Hsrv; cbn [fst snd server app].
    + rewrite ?Hsrv. split; [intros i c sql H; at_position H|discriminate].
    + specialize (Hst c0 eq_refl).
      destruct (truthy_conn c0).
      * destruct (completeSQL c0 (r_input r)) as [e|out];
          [|destruct (prettyPrintSQL (r_format r) out)];
          cbn [fst snd server app]; rewrite ?Hsrv;
          (split; [intros i c sql H; at_position H; injection H as <- _;
                   apply known_app_l, Hst
                  |intros c [= <-]; apply known_app_l, Hst]).
      * destruct (prettyPrintSQL (r_format r) (r_input r));
          cbn [fst snd server app]; rewrite ?Hsrv;
          (split; [intros i c sql H; at_position H
                  |intros c [= <-]; apply known_app_l, Hst]).
    + destruct (prettyPrintSQL (r_format r) (r_input r));
        cbn [fst snd server app]; rewrite ?Hsrv;
        (split; [intros i c sql H; at_position H|discriminate]).
  - destruct (r_sysenv r) as [|d].
    + cbn [fst snd server app].
      destruct (prettyPrintSQL (r_format r) (r_input r));
        cbn [fst snd server app];
        (split; [intros i c sql H; at_position H|discriminate]).
    + destruct (truthy_desc d).
      * destruct (connect d) as [e|c0] eqn:Hcon; cbn [fst snd server app].
        { split; [intros i c sql H; at_position H|].
          intros c H. apply known_app_l, Hst, H. }
        destruct (truthy_conn c0).
        -- destruct (completeSQL c0 (r_input r)) as [e|out];
             [|destruct (prettyPrintSQL (r_format r) out)];
             cbn [fst snd server app];
             (split; [intros i c sql H; at_position H; injection H as <- _;
                      simpl; apply (known_connected seen [] d c0 Hcon)
                     |intros c [= <-]; apply known_connected, Hcon]).
        -- destruct (prettyPrintSQL (r_format r) (r_input r));
             cbn [fst snd server app];
             (split; [intros i c sql H; at_position H
                     |intros c [= <-]; apply known_connected, Hcon]).
      * cbn [fst snd server app].
        destruct (prettyPrintSQL (r_format r) (r_input r));
          cbn [fst snd server app];
          (split; [intros i c sql H; at_position H|discriminate]).
Qed.

Lemma handle_provenance
    (st : locals Desc Conn) (r : reading Desc)
    (seen : list (action Desc Conn)) :
  (forall c, server st = Bound (Some c) -> known seen c) ->
  (forall i c sql,
     (handle st r).1.1 !! i = Some (CompleteSQL c sql) ->
     known (seen ++ take i (handle st r).1.1) c)
  /\ (forall c, server (handle st r).1.2 = Bound (Some c) ->
        known (seen ++ (handle st r).1.1) c).
Proof.
  intros Hst.
  assert (Hidle : forall t : list (action Desc Conn),
            forallb (fun a => negb (contacts_server a)) t = true ->
            (forall i c sql, t !! i = Some (CompleteSQL c sql) ->
                             known (seen ++ take i t) c)
            /\ (forall c, server st = Bound (Some c) ->
                          known (seen ++ t) c)).
  { intros t Ht. split; [|intros c H; apply known_app_l, Hst, H].
    intros i c sql H. apply list_elem_of_lookup_2, list_elem_of_In in H.
    rewrite forallb_forall in Ht. apply Ht in H. discriminate. }
  unfold CompleteSqlMain.handle.
  destruct (r_event r) as [ev|]; [|apply Hidle; reflexivity].
  repeat (match goal with |- context [if ?b then _ else _] =>
            destruct b; [apply Hidle; try reflexivity|] end).
  { unfold on_export. destruct (r_clear r); reflexivity. }
  destruct (ev =? "Vervollständigen")%string; [|apply Hidle; reflexivity].
  pose proof (on_complete_provenance st r seen Hst) as H.
  destruct (on_complete st r) as [t st1]. exact H.
Qed.

Lemma main_loop_provenance (rs : list (reading Desc)) :
  forall (st : locals Desc Conn) (seen : list (action Desc Conn)),
    (forall c, server st = Bound (Some c) -> known seen c) ->
    forall i c sql,
      (main_loop st rs).1 !! i = Some (CompleteSQL c sql) ->
      known (seen ++ take i (main_loop st rs).1) c.
Proof.
  induction rs as [|r rest IH]; intros st seen Hst i c sql;
    [intros H; discriminate H|].
  simpl. destruct (handle_provenance st r seen Hst) as [Hturn Hnext].
  destruct (handle st r) as [[t st1] go]. cbn [fst snd] in Hturn, Hnext.
  assert (Hin : forall more : list (action Desc Conn),
            t !! i = Some (CompleteSQL c sql) ->
            known (seen ++ take i (t ++ more)) c).
  { intros more H. rewrite take_app_le
      by (apply Nat.lt_le_incl, (lookup_lt_Some _ _ _ H)).
    apply Hturn with sql, H. }
  destruct go.
  - specialize (IH st1 (seen ++ t)%list Hnext).
    destruct (main_loop st1 rest) as [t' st2]. cbn [fst] in *.
    intros H. apply lookup_app_Some in H as [H|[Hlen H]]; [auto|].
    apply IH in H. rewrite take_app_ge by exact Hlen.
    rewrite app_assoc. exact H.
  - cbn [fst]. intros H.
    apply lookup_app_Some in H as [H|[Hlen H]]; [auto|].
    destruct (i - length t)%nat as [|k]; discriminate H.
Qed.

(** X5. In every run of the loop, a call of [completeSQL] goes to a server
    object that an earlier call of [connect] in the same run returned. *)
Theorem completeSQL_on_connected_server
    (rs : list (reading Desc)) (i : nat) (c : Conn) (sql : string) :
  (main rs).1 !! i = Some (CompleteSQL c sql) ->
  exists j d, (j < i)%nat /\ (main rs).1 !! j = Some (Connect d)
              /\ connect d = inr c.
Proof.
  intros H.
  destruct (main_loop_provenance rs (Locals None Unbound) [] 
              ltac:(discriminate) i c sql H) as (j & d & Hj & Hd).
  simpl in Hj. apply lookup_take_Some in Hj as [Hj Hlt]. eauto.
Qed.

(** X6. When the formatter the format box names raises on every input (its
    library is not installed), a completion of non-empty input always ends
    with the traceback popup and an "ERROR: ..." text in the output box,
    whatever the server returned: the SQL is never shown. *)
Theorem failing_formatter_hides_sql
    (st : locals Desc Conn) (r : reading Desc) :
  r_input r <> "" ->
  (forall sql, exists e, prettyPrintSQL (r_format r) sql = inl e) ->
  exists t e,
    (on_complete st r).1
    = (t ++ shown (inl e : exn + string))%list
    /\ forallb (fun a => match a with Update _ _ => false | _ => true end) t
       = true.
Proof.
  intros Hin Hfmt.
  unfold CompleteSqlMain.on_complete, CompleteSqlMain.complete.
  rewrite (input_nonempty _ Hin).
  destruct (select_server st (r_sysenv r)) as [[t st1] raised] eqn:E.
  assert (Ht : forallb (fun a : action Desc Conn =>
                 match a with Update _ _ => false | _ => true end) t = true).
  { revert E. unfold CompleteSqlMain.select_server.
    destruct (decide (Some (r_sysenv r) = oldSys st));
      [intros [= <- _ _]; reflexivity|].
    destruct (r_sysenv r) as [|d]; [intros [= <- _ _]; reflexivity|].
    destruct (truthy_desc d); [|intros [= <- _ _]; reflexivity].
    destruct (connect d); intros [= <- _ _]; reflexivity. }
  destruct raised as [e|]; [exists t, e; auto|].
  destruct (server st1) as [|[c|]].
  - exists t, (NameError "server"). auto.
  - destruct (truthy_conn c).
    + destruct (completeSQL c (r_input r)) as [e|out].
      * exists (t ++ [CompleteSQL c (r_input r)])%list, e.
        split; [reflexivity|]. rewrite forallb_app, Ht. reflexivity.
      * destruct (Hfmt out) as [e He]. rewrite He.
        exists (t ++ [CompleteSQL c (r_input r)])%list, e.
        split; [reflexivity|]. rewrite forallb_app, Ht. reflexivity.
    + destruct (Hfmt (r_input r)) as [e He]. rewrite He. eauto.
  - destruct (Hfmt (r_input r)) as [e He]. rewrite He. eauto.
Qed.

(** *** One connection per selection *)

Local Abbreviation connects t :=
  (length (List.filter is_connect (t : list (action Desc Conn)))).

Lemma connects_app (t1 t2 : list (action Desc Conn)) :
  connects (t1 ++ t2) = (connects t1 + connects t2)%nat.
Proof. rewrite List.filter_app, length_app. reflexivity. Qed.

(** A completion calls [connect] only when the selection differs from
    [oldSys], at most once, and makes the selection the new [oldSys];
    otherwise [oldSys] stays. *)
Lemma on_complete_connects (st : locals Desc Conn) (r : reading Desc) :
  (connects (on_complete st r).1 = 0%nat
   /\ oldSys (on_complete st r).2 = oldSys st)
  \/ ((connects (on_complete st r).1 <= 1)%nat
      /\ oldSys (on_complete st r).2 = Some (r_sysenv r)).
Proof.
  unfold CompleteSqlMain.on_complete, CompleteSqlMain.complete,
    CompleteSqlMain.select_server.
  destruct (r_input r =? "")%string; [left; split; reflexivity|].
  destruct (decide (Some (r_sysenv r) = oldSys st)) as [E|_].
  - left. destruct (server st) as [|[c|]].
    + split; reflexivity.
    + destruct (truthy_conn c);
        [destruct (completeSQL c (r_input r)) as [e|out];
           [|destruct (prettyPrintSQL (r_format r) out)]
        |destruct (prettyPrintSQL (r_format r) (r_input r))];
        split; reflexivity.
    + destruct (prettyPrintSQL (r_format r) (r_input r)); split; reflexivity.
  - right. destruct (r_sysenv r) as [|d].
    + cbn [server].
      destruct (prettyPrintSQL (r_format r) (r_input r));
        split; simpl; auto.
    + destruct (truthy_desc d).
      * destruct (connect d) as [e|c]; [split; simpl; auto|].
        cbn [server]. destruct (truthy_conn c);
          [destruct (completeSQL c (r_input r)) as [e|out];
             [|destruct (prettyPrintSQL (r_format r) out)]
          |destruct (prettyPrintSQL (r_format r) (r_input r))];
          split; simpl; auto.
      * cbn [server].
        destruct (prettyPrintSQL (r_format r) (r_input r));
          split; simpl; auto.
Qed.

Lemma handle_connects (st : locals Desc Conn) (r : reading Desc) :
  (connects (handle st r).1.1 = 0%nat
   /\ oldSys (handle st r).1.2 = oldSys st)
  \/ ((connects (handle st r).1.1 <= 1)%nat
      /\ oldSys (handle st r).1.2 = Some (r_sysenv r)).
Proof.
  unfold CompleteSqlMain.handle.
  destruct (r_event r) as [ev|]; [|left; split; reflexivity].
  destruct (ev =? "Beenden")%string; [left; split; reflexivity|].
  destruct (ev =? "clear")%string; [left; split; reflexivity|].
  destruct (ev =? "import")%string; [left; split; reflexivity|].
  destruct (ev =? "export")%string.
  { left. unfold on_export. destruct (r_clear r); split; reflexivity. }
  destruct (ev =? "Vervollständigen")%string; [|left; split; reflexivity].
  pose proof (on_complete_connects st r) as H.
  destruct (on_complete st r) as [t st1]. exact H.
Qed.

Lemma main_loop_connected (sys : sysenv Desc) (rs : list (reading Desc)) :
  Forall (fun r => r_sysenv r = sys) rs ->
  forall st : locals Desc Conn,
    oldSys st = Some sys -> connects (main_loop st rs).1 = 0%nat.
Proof.
  induction 1 as [|r rest Hr _ IH]; intros st Hst; [reflexivity|].
  simpl. pose proof (handle_connects st r) as H.
  assert (H0 : connects (handle st r).1.1 = 0%nat
               /\ oldSys (handle st r).1.2 = Some sys).
  { destruct H as [[H1 H2]|[H1 H2]].
    - split; [exact H1|congruence].
    - split; [|congruence].
      unfold CompleteSqlMain.handle in *.
      destruct (r_event r) as [ev|]; [|reflexivity].
      destruct (ev =? "Beenden")%string; [reflexivity|].
      destruct (ev =? "clear")%string; [reflexivity|].
      destruct (ev =? "import")%string; [reflexivity|].
      destruct (ev =? "export")%string.
      { unfold on_export. destruct (r_clear r); reflexivity. }
      destruct (ev =? "Vervollständigen")%string; [|reflexivity].
      { unfold CompleteSqlMain.on_complete, CompleteSqlMain.complete,
          CompleteSqlMain.select_server.
        destruct (r_input r =? "")%string; [reflexivity|].
        destruct (decide (Some (r_sysenv r) = oldSys st)) as [_|N];
          [|congruence].
        destruct (server st) as [|[c|]]; try reflexivity.
        - destruct (truthy_conn c);
            [destruct (completeSQL c (r_input r)) as [e|out];
               [|destruct (prettyPrintSQL (r_format r) out)]
            |destruct (prettyPrintSQL (r_format r) (r_input r))];
            reflexivity.
        - destruct (prettyPrintSQL (r_format r) (r_input r)); reflexivity. } }
  clear H. destruct H0 as [H1 H2].
  destruct (handle st r) as [[t st1] go]. cbn [fst snd] in *.
  destruct go.
  - specialize (IH st1 H2). destruct (main_loop st1 rest) as [t' st2].
    cbn [fst] in *. rewrite connects_app, H1, IH. reflexivity.
  - cbn [fst]. rewrite connects_app, H1. reflexivity.
Qed.

(** X11. While the selection in the system box stays the same, a run calls
    [connect] at most once, however often 'Vervollständigen' is pressed
    and whether or not that call succeeded. *)
Theorem same_selection_connects_once
    (sys : sysenv Desc) (rs : list (reading Desc)) :
  Forall (fun r => r_sysenv r = sys) rs ->
  (connects (main rs).1 <= 1)%nat.
Proof.
  unfold CompleteSqlMain.main.
  generalize (Locals (None : option (sysenv Desc)) (Unbound : binding Conn)).
  intros st H. revert st.
  induction H as [|r rest Hr Hrest IH]; intros st; [simpl; lia|].
  simpl. pose proof (handle_connects st r) as Hh.
  destruct (handle st r) as [[t st1] go]. cbn [fst snd] in Hh.
  destruct go.
  - destruct Hh as [[H1 _]|[H1 H2]].
    + specialize (IH st1). destruct (main_loop st1 rest) as [t' st2].
      cbn [fst] in *. rewrite connects_app, H1. exact IH.
    + rewrite Hr in H2.
      pose proof (main_loop_connected sys rest Hrest st1 H2) as H0.
      destruct (main_loop st1 rest) as [t' st2]. cbn [fst] in *.
      rewrite connects_app, H0. lia.
  - cbn [fst]. rewrite connects_app. simpl.
    destruct Hh as [[H1 _]|[H1 _]]; lia.
Qed.

End CompleteSqlMainFacts.

(** X3 on a run that has connected to "prod" and then selects "test",
    which refuses the connection: the second press sends the SQL to the
    server of "prod". *)
Lemma failed_connect_is_not_retried_witness :
  let st := CompleteSqlMain.Locals
              (Some (CompleteSqlMain.System "prod"))
              (CompleteSqlMain.Bound (Some "server:prod")) in
  let r := Samples.press (CompleteSqlMain.System "test") "-" "select 1" in
  Samples.sample_connect "test"
  = inl (Gui.LibraryError "connection refused")
  /\ (forall d',
        ~ In (CompleteSqlMain.Connect d')
            (Samples.sample_on_complete (Samples.sample_on_complete st r).2
               r).1)
  /\ exists rest,
       (Samples.sample_on_complete (Samples.sample_on_complete st r).2 r).1
       = CompleteSqlMain.CompleteSQL "server:prod" "select 1" :: rest.
Proof.
  intros st r.
  destruct (failed_connect_is_not_retried string string
              Samples.sample_connect Samples.sample_completeSQL
              (Samples.always string) (Samples.always string)
              Samples.sample_str (Samples.missing "sqlfmt")
              (Samples.missing "sqlparse") (Samples.missing "sqlparse")
              st "test" (Gui.LibraryError "connection refused") r r
              ltac:(discriminate) eq_refl eq_refl ltac:(discriminate)
              eq_refl ltac:(discriminate) eq_refl)
    as (_ & _ & Hno & Hsend).
  split; [reflexivity|]. split; [exact Hno|]. exact (Hsend eq_refl).
Defined.

(** X4 after a completion on "prod": the next press, with "-" selected,
    contacts no server. *)
Lemma dash_contacts_no_server_witness :
  let rs := [Samples.press (CompleteSqlMain.System "prod") "-" "select 1"] in
  let r := Samples.press CompleteSqlMain.NoSystem "-" "select 2" in
  CompleteSqlMain.server (Samples.sample_main rs).2
  = CompleteSqlMain.Bound (Some "server:prod")
  /\ (Samples.sample_handle (Samples.sample_main rs).2 r).1.1
     = [CompleteSqlMain.Update "output" "select 2"].
Proof.
  intros rs r. split; [reflexivity|].
  exact (proj2 (dash_contacts_no_server string string
                  Samples.sample_connect Samples.sample_completeSQL
                  (Samples.always string) (Samples.always string)
                  Samples.sample_str (Samples.missing "sqlfmt")
                  (Samples.missing "sqlparse") (Samples.missing "sqlparse")
                  rs r eq_refl) eq_refl ltac:(discriminate)).
Defined.

(** X5 on a run of one completion on "prod". *)
Lemma completeSQL_on_connected_server_witness :
  let rs := [Samples.press (CompleteSqlMain.System "prod") "-" "select 1"] in
  (Samples.sample_main rs).1 !! 1%nat
  = Some (CompleteSqlMain.CompleteSQL "server:prod" "select 1")
  /\ exists j d,
       (j < 1)%nat
       /\ (Samples.sample_main rs).1 !! j = Some (CompleteSqlMain.Connect d)
       /\ Samples.sample_connect d = inr "server:prod".
Proof.
  intros rs.
  assert (H : (Samples.sample_main rs).1 !! 1%nat
              = Some (CompleteSqlMain.CompleteSQL "server:prod" "select 1"))
    by reflexivity.
  split; [exact H|].
  exact (completeSQL_on_connected_server string string
           Samples.sample_connect Samples.sample_completeSQL
           (Samples.always string) (Samples.always string)
           Samples.sample_str (Samples.missing "sqlfmt")
           (Samples.missing "sqlparse") (Samples.missing "sqlparse")
           rs 1%nat "server:prod" "select 1" H).
Defined.

(** X6 with the format box at its default "sqlparse" and the library not
    installed. *)
Lemma failing_formatter_hides_sql_witness :
  let r := Samples.press CompleteSqlMain.NoSystem "sqlparse" "select 1" in
  let st := CompleteSqlMain.Locals None CompleteSqlMain.Unbound in
  (Samples.sample_on_complete st r).1
  = [CompleteSqlMain.PopupTraceback "Fehler bei Vervollständigung"
       (Gui.NameError "e");
     CompleteSqlMain.Update "output" "ERROR: name 'e' is not defined"]
  /\ exists t e,
       (Samples.sample_on_complete st r).1
       = (t ++ [CompleteSqlMain.PopupTraceback
                  "Fehler bei Vervollständigung" e;
                CompleteSqlMain.Update "output"
                  ("ERROR: " +:+ Samples.sample_str e)])%list.
Proof.
  intros r st. split; [reflexivity|].
  destruct (failing_formatter_hides_sql string string
              Samples.sample_connect Samples.sample_completeSQL
              (Samples.always string) (Samples.always string)
              Samples.sample_str (Samples.missing "sqlfmt")
              (Samples.missing "sqlparse") (Samples.missing "sqlparse")
              st r ltac:(discriminate)
              (fun sql => ex_intro _ (Gui.NameError "e") eq_refl))
    as (t & e & H & _).
  exists t, e. exact H.
Defined.

(** ** [createFile] and the loop of [mengenabweichung_gui.pyw] *)

Section MengenabweichungMainFacts.

Import Gui MengenabweichungMain.

Local Open Scope list_scope.

Variable strptime : string -> string -> exn + datetime.
Variable Server : Type.
Variable exportVonBis :
  Server -> string -> option datetime -> option datetime -> exn + Z.
Variable as_posix : string -> string.
Variable path_str : string -> string.
Variable server : Server.
Variables cmonth cyear : Z.
Variables pyear pmonth : Z.
Variables nyear nmonth : Z.

Local Abbreviation parseDate := (parseDate strptime).
Local Abbreviation createFile :=
  (createFile strptime Server exportVonBis as_posix path_str).
Local Abbreviation date_accepted := (date_accepted strptime).
Local Abbreviation parsed := (parsed strptime).
Local Abbreviation on_period :=
  (on_period cmonth cyear pyear pmonth nyear nmonth).
Local Abbreviation on_save :=
  (on_save strptime Server exportVonBis as_posix path_str server).
Local Abbreviation handle :=
  (handle strptime Server exportVonBis as_posix path_str server
     cmonth cyear pyear pmonth nyear nmonth).
Local Abbreviation main_loop :=
  (main_loop strptime Server exportVonBis as_posix path_str server
     cmonth cyear pyear pmonth nyear nmonth).
Local Abbreviation due_export :=
  (due_export strptime as_posix).

Lemma parseDate_by_flag (dateS : option string) :
  parseDate dateS =
  if date_accepted dateS then ret (parsed dateS, true)
  else ([PopupError (date_error dateS)], inr (None, false)).
Proof.
  unfold MengenabweichungMain.parsed, Gui.parseDate, Gui.date_accepted,
    date_error.
  destruct dateS as [s|]; [|reflexivity].
  destruct (s =? "")%string; [reflexivity|].
  destruct (strptime s "%d.%m.%Y"); reflexivity.
Qed.

(** [createFile], guard by guard. *)
Lemma createFile_by_guards (fileS vonS bisS : option string) :
  createFile server fileS vonS bisS =
  if negb (date_accepted vonS) then
    ([PopupError (date_error vonS)], inr tt)
  else if negb (date_accepted bisS) then
    ([PopupError (date_error bisS)], inr tt)
  else if negb (file_chosen fileS) then
    ([PopupError no_file_error], inr tt)
  else
    let call := ExportVonBis (as_posix (default "" fileS))
                  (parsed vonS) (parsed bisS) in
    match exportVonBis server (as_posix (default "" fileS))
            (parsed vonS) (parsed bisS) with
    | inr c =>
        ([call; PopupOk (success_message c (path_str (default "" fileS)))],
         inr tt)
    | inl e => ([call], inl e)
    end.
Proof.
  unfold Gui.createFile. rewrite !parseDate_by_flag.
  destruct (date_accepted vonS); [|reflexivity].
  destruct (date_accepted bisS); [|reflexivity].
  destruct fileS as [f|]; [|reflexivity]. simpl.
  destruct (f =? "")%string; [reflexivity|]. simpl.
  unfold call_exportVonBis, lift, emit, bind, popup_ok. simpl.
  destruct (exportVonBis server (as_posix f) (parsed vonS) (parsed bisS));
    reflexivity.
Qed.

(** X7. When a guard of [createFile] fails, exactly one error popup is
    shown, for the first input that fails in the order Von, Bis, file, and
    [createFile] returns; the inputs after it are not examined. *)
Theorem createFile_first_failure (fileS vonS bisS : option string) :
  (date_accepted vonS = false ->
   createFile server fileS vonS bisS
   = ([PopupError (date_error vonS)], inr tt))
  /\ (date_accepted vonS = true -> date_accepted bisS = false ->
      createFile server fileS vonS bisS
      = ([PopupError (date_error bisS)], inr tt))
  /\ (date_accepted vonS = true -> date_accepted bisS = true ->
      file_chosen fileS = false ->
      createFile server fileS vonS bisS
      = ([PopupError no_file_error], inr tt)).
Proof.
  rewrite createFile_by_guards. repeat split.
  - intros ->. reflexivity.
  - intros -> ->. reflexivity.
  - intros -> -> ->. reflexivity.
Qed.

(** X8. [createFile] raises exactly when every guard passes and
    [exportVonBis] raises, and then raises that exception; it shows the
    success popup exactly when [exportVonBis] returned, with the count and
    the path in its text. The dates passed on are [None] for an empty box. *)
Theorem createFile_raises_iff (fileS vonS bisS : option string) :
  (forall e,
     outcome (createFile server fileS vonS bisS) = inl e <->
     date_accepted vonS = true /\ date_accepted bisS = true
     /\ exists f, fileS = Some f /\ f <> ""
        /\ exportVonBis server (as_posix f) (parsed vonS) (parsed bisS)
           = inl e)
  /\ (forall msg,
        In (PopupOk msg) (trace (createFile server fileS vonS bisS)) <->
        date_accepted vonS = true /\ date_accepted bisS = true
        /\ exists f c, fileS = Some f /\ f <> ""
           /\ exportVonBis server (as_posix f) (parsed vonS) (parsed bisS)
              = inr c
           /\ msg = success_message c (path_str f))
  /\ parsed None = None /\ parsed (Some "") = None.
Proof.
  rewrite createFile_by_guards.
  split; [|split; [|split; reflexivity]].
  - intros e.
    destruct (date_accepted vonS);
      [|simpl; split; [discriminate|intros [? _]; discriminate]].
    destruct (date_accepted bisS);
      [|simpl; split; [discriminate|intros (_ & ? & _); discriminate]].
    destruct fileS as [f|]; simpl;
      [|split; [discriminate|intros (_ & _ & f & ? & _); discriminate]].
    destruct (String.eqb_spec f "") as [->|Hne]; simpl.
    { split; [discriminate|]. intros (_ & _ & f & [= <-] & Hne & _).
      contradiction. }
    destruct (exportVonBis server (as_posix f) (parsed vonS) (parsed bisS))
      as [e'|c] eqn:Ex; simpl.
    + split.
      * intros [= <-]. repeat split. exists f. auto.
      * intros (_ & _ & f' & [= <-] & _ & H). congruence.
    + split; [discriminate|].
      intros (_ & _ & f' & [= <-] & _ & H). congruence.
  - intros msg.
    destruct (date_accepted vonS);
      [|simpl; split; [intros [H|[]]; discriminate
                      |intros [? _]; discriminate]].
    destruct (date_accepted bisS);
      [|simpl; split; [intros [H|[]]; discriminate
                      |intros (_ & ? & _); discriminate]].
    destruct fileS as [f|]; simpl;
      [|split; [intros [H|[]]; discriminate
               |intros (_ & _ & f & c & ? & _); discriminate]].
    destruct (String.eqb_spec f "") as [->|Hne]; simpl.
    { split; [intros [H|[]]; discriminate|].
      intros (_ & _ & f & c & [= <-] & Hne & _). contradiction. }
    destruct (exportVonBis server (as_posix f) (parsed vonS) (parsed bisS))
      as [e'|c] eqn:Ex; simpl.
    + split; [intros [H|[]]; discriminate|].
      intros (_ & _ & f' & c & [= <-] & _ & H & _). congruence.
    + split.
      * intros [H|[H|[]]]; [discriminate|]. injection H as <-.
        repeat split. exists f, c. auto.
      * intros (_ & _ & f' & c' & [= <-] & _ & H & ->).
        right. left. congruence.
Qed.

(** *** The loop *)

Lemma exports_app (t1 t2 : list action) :
  exports (t1 ++ t2) = exports t1 ++ exports t2.
Proof. unfold exports. apply flat_map_app. Qed.

Lemma on_period_exports (ev : string) : exports (on_period ev) = [].
Proof.
  unfold MengenabweichungMain.on_period.
  repeat (match goal with |- context [if ?b then _ else _] =>
            destruct b end); reflexivity.
Qed.

Lemma on_save_exports (r : reading) :
  exports (on_save r) =
  if date_accepted (r_values r !! "Von")
     && date_accepted (r_values r !! "Bis")
     && file_chosen (r_values r !! "File")
  then [ExportVonBis (as_posix (default "" (r_values r !! "File")))
          (parsed (r_values r !! "Von")) (parsed (r_values r !! "Bis"))]
  else [].
Proof.
  unfold MengenabweichungMain.on_save. rewrite createFile_by_guards.
  destruct (date_accepted (r_values r !! "Von")); [|reflexivity].
  destruct (date_accepted (r_values r !! "Bis")); [|reflexivity].
  destruct (file_chosen (r_values r !! "File")); [|reflexivity].
  simpl.
  destruct (exportVonBis server _ _ _); reflexivity.
Qed.

(** X9. In a run of the loop, [exportVonBis] is called once for every
    'Speichern' before the window is closed whose form passes the guards,
    in the order of the turns, and at no other time: not by the period
    buttons, not after an export that raised, not after 'Beenden'. *)
Theorem main_loop_exports (rs : list reading) :
  exports (main_loop rs) = flat_map due_export (handled rs).
Proof.
  induction rs as [|r rest IH]; [reflexivity|].
  simpl. unfold MengenabweichungMain.handle.
  destruct (r_event r) as [ev|] eqn:Hev; [|reflexivity].
  destruct (ev =? "Beenden")%string; [reflexivity|].
  simpl. rewrite !exports_app, on_period_exports, IH. simpl.
  f_equal. unfold MengenabweichungMain.due_export. rewrite Hev.
  destruct (ev =? "Speichern")%string; [|reflexivity].
  rewrite on_save_exports. simpl.
  destruct (date_accepted (r_values r !! "Von")); [|reflexivity].
  destruct (date_accepted (r_values r !! "Bis")); [|reflexivity].
  destruct (r_values r !! "File") as [f|]; [|reflexivity].
  simpl. destruct (negb (f =? "")%string); reflexivity.
Qed.

End MengenabweichungMainFacts.

(** X9 on a run: a period button, a save on a misspelt date, a save whose
    export fails, a save that succeeds, 'Beenden', and a save that comes
    too late. *)
Lemma main_loop_exports_witness :
  let rs :=
    [ Samples.click "Aktueller Monat" "" "" "";
      Samples.click "Speichern" "abw.xlsx" "1.13.2024" "";
      Samples.click "Speichern" "locked.xlsx" "01.03.2024" "01.04.2024";
      Samples.click "Speichern" "abw.xlsx" "01.03.2024" "";
      Samples.click "Beenden" "" "" "";
      Samples.click "Speichern" "abw.xlsx" "" "" ] in
  MengenabweichungMain.exports (Samples.sample_loop rs)
  = [ Gui.ExportVonBis "locked.xlsx" (Some (Gui.Datetime 2024 3 1))
        (Some (Gui.Datetime 2024 4 1));
      Gui.ExportVonBis "abw.xlsx" (Some (Gui.Datetime 2024 3 1)) None ].
Proof.
  intros rs. unfold Samples.sample_loop.
  rewrite (main_loop_exports Gui.strptime_model unit Samples.sample_export
             id id tt 3 2024 2024 2 2024 4 rs).
  vm_compute. reflexivity.
Defined.

(** ** The period buttons and [parseDate] *)

(** The decimal digits [pretty] writes read back with [digit_of]. *)
Lemma digit_of_pretty_N_char (d : N) :
  (d < 10)%N -> Gui.digit_of (pretty_N_char d) = Some (Z.of_N d).
Proof.
  intros H.
  assert (C : (d = 0 \/ d = 1 \/ d = 2 \/ d = 3 \/ d = 4 \/ d = 5 \/ d = 6
               \/ d = 7 \/ d = 8 \/ d = 9)%N) by lia.
  repeat (destruct C as [->|C]); try subst d; reflexivity.
Qed.

(** [pretty] on a number below 10000, digit by digit. *)
Lemma pretty_N_below_10000 (x : N) :
  (0 < x < 10000)%N ->
  pretty x =
  let c0 := pretty_N_char (x mod 10)%N in
  let c1 := pretty_N_char (x / 10 mod 10)%N in
  let c2 := pretty_N_char (x / 10 / 10 mod 10)%N in
  let c3 := pretty_N_char (x / 10 / 10 / 10 mod 10)%N in
  if (x <? 10)%N then String c0 ""
  else if (x <? 100)%N then String c1 (String c0 "")
  else if (x <? 1000)%N then String c2 (String c1 (String c0 ""))
  else String c3 (String c2 (String c1 (String c0 ""))).
Proof.
  intros Hx. unfold pretty, pretty_N.
  destruct (decide (x = 0)%N); [lia|]. cbv zeta.
  rewrite pretty_N_go_step by lia.
  destruct (N.ltb_spec x 10).
  { rewrite (N.div_small x 10) by lia. apply pretty_N_go_0. }
  rewrite pretty_N_go_step
    by (zify; Z.to_euclidean_division_equations; lia).
  destruct (N.ltb_spec x 100).
  { replace (x / 10 / 10)%N with 0%N
      by (zify; Z.to_euclidean_division_equations; lia).
    apply pretty_N_go_0. }
  rewrite pretty_N_go_step
    by (zify; Z.to_euclidean_division_equations; lia).
  destruct (N.ltb_spec x 1000).
  { replace (x / 10 / 10 / 10)%N with 0%N
      by (zify; Z.to_euclidean_division_equations; lia).
    apply pretty_N_go_0. }
  rewrite pretty_N_go_step
    by (zify; Z.to_euclidean_division_equations; lia).
  replace (x / 10 / 10 / 10 / 10)%N with 0%N
    by (zify; Z.to_euclidean_division_equations; lia).
  apply pretty_N_go_0.
Qed.

(** The year a button writes, four digits with leading zeros, reads back
    as the year. *)
Lemma year_text (y : Z) :
  1 <= y <= 9999 ->
  Gui.parse_year (MengenabweichungMain.format_0d 4 y) = Some y.
Proof.
  intros Hy. unfold MengenabweichungMain.format_0d.
  replace (y <? 0) with false by (symmetry; apply Z.ltb_ge; lia).
  assert (Hx : Z.of_N (Z.abs_N y) = y) by (rewrite N2Z.inj_abs_N; lia).
  set (x := Z.abs_N y) in *. clearbody x.
  rewrite pretty_N_below_10000 by lia. cbv zeta.
  pose proof (digit_of_pretty_N_char (x mod 10)
                ltac:(apply N.mod_lt; discriminate)) as H0.
  pose proof (digit_of_pretty_N_char (x / 10 mod 10)
                ltac:(apply N.mod_lt; discriminate)) as H1.
  pose proof (digit_of_pretty_N_char (x / 10 / 10 mod 10)
                ltac:(apply N.mod_lt; discriminate)) as H2.
  pose proof (digit_of_pretty_N_char (x / 10 / 10 / 10 mod 10)
                ltac:(apply N.mod_lt; discriminate)) as H3.
  revert H0 H1 H2 H3.
  generalize (pretty_N_char (x mod 10)).
  generalize (pretty_N_char (x / 10 mod 10)).
  generalize (pretty_N_char (x / 10 / 10 mod 10)).
  generalize (pretty_N_char (x / 10 / 10 / 10 mod 10)).
  intros c3 c2 c1 c0 H0 H1 H2 H3.
  destruct (N.ltb_spec x 10);
    [|destruct (N.ltb_spec x 100); [|destruct (N.ltb_spec x 1000)]].
  - change (Gui.parse_year
              (String "0" (String "0" (String "0" (String c0 ""))))
            = Some y).
    unfold Gui.parse_year, Gui.two_digits. rewrite H0.
    change (Gui.digit_of "0") with (Some 0). cbv iota beta. f_equal.
    zify; Z.to_euclidean_division_equations; lia.
  - change (Gui.parse_year
              (String "0" (String "0" (String c1 (String c0 ""))))
            = Some y).
    unfold Gui.parse_year, Gui.two_digits. rewrite H0, H1.
    change (Gui.digit_of "0") with (Some 0). cbv iota beta. f_equal.
    zify; Z.to_euclidean_division_equations; lia.
  - change (Gui.parse_year
              (String "0" (String c2 (String c1 (String c0 ""))))
            = Some y).
    unfold Gui.parse_year, Gui.two_digits. rewrite H0, H1, H2.
    change (Gui.digit_of "0") with (Some 0). cbv iota beta. f_equal.
    zify; Z.to_euclidean_division_equations; lia.
  - change (Gui.parse_year
              (String c3 (String c2 (String c1 (String c0 ""))))
            = Some y).
    unfold Gui.parse_year, Gui.two_digits. rewrite H0, H1, H2, H3.
    cbv iota beta. f_equal.
    zify; Z.to_euclidean_division_equations; lia.
Qed.

(** The month a button writes: two characters, neither a dot, that read
    as the month. *)
Lemma month_text (m : Z) :
  1 <= m <= 12 ->
  exists a b,
    MengenabweichungMain.format_0d 2 m = String a (String b "")
    /\ (a =? ".")%char = false /\ (b =? ".")%char = false
    /\ Gui.parse_month (String a (String b "")) = Some m.
Proof.
  intros Hm.
  assert (H : m = 1 \/ m = 2 \/ m = 3 \/ m = 4 \/ m = 5 \/ m = 6 \/ m = 7
              \/ m = 8 \/ m = 9 \/ m = 10 \/ m = 11 \/ m = 12) by lia.
  repeat (destruct H as [->|H]); try subst m;
    eexists _, _; (split; [vm_compute; reflexivity|]); repeat split.
Qed.

Lemma days_in_month_lower (y m : Z) : (1 <=? Gui.days_in_month y m) = true.
Proof.
  unfold Gui.days_in_month.
  destruct (m =? 2); [destruct (Gui.is_leap y); reflexivity|].
  destruct ((m =? 4) || (m =? 6) || (m =? 9) || (m =? 11)); reflexivity.
Qed.

Lemma first_of_month_parses (m y : Z) :
  1 <= m <= 12 -> 1 <= y <= 9999 ->
  Gui.parseDate Gui.strptime_model
    (Some (MengenabweichungMain.first_of_month m y))
  = Gui.ret (Some (Gui.Datetime y m 1), true).
Proof.
  intros Hm Hy.
  destruct (month_text m Hm) as (a & b & Hf & Ha & Hb & Hpm).
  unfold Gui.parseDate, Gui.strptime_model,
    MengenabweichungMain.first_of_month.
  rewrite Hf. set (Y := MengenabweichungMain.format_0d 4 y).
  change ("01." +:+ String a (String b "") +:+ "." +:+ Y)
    with (String "0" (String "1" (String "." (String a (String b
            (String "." Y)))))).
  unfold Gui.strptime_dmY.
  cbn -[Gui.parse_year Gui.parse_month Gui.days_in_month Z.leb].
  rewrite Ha, Hb.
  cbn -[Gui.parse_year Gui.parse_month Gui.days_in_month Z.leb].
  subst Y.
  rewrite Hpm, (year_text y Hy).
  change (Gui.two_digits "0" "1") with (Some 1).
  cbn -[Gui.days_in_month Z.leb].
  change ((1 <=? 1) && (1 <=? 31)) with true.
  cbn -[Gui.days_in_month Z.leb].
  rewrite days_in_month_lower.
  replace (1 <=? y) with true by (symmetry; apply Z.leb_le; lia).
  reflexivity.
Qed.

(** X10. Each period button writes two dates that [parseDate] accepts,
    read as the first day of the month or year meant, when today's year
    is between 2 and 9998 and the months and years of the previous and the
    next month are calendar values. *)
Theorem period_buttons_write_accepted_dates
    (cmonth cyear pyear pmonth nyear nmonth : Z) :
  1 <= cmonth <= 12 -> 2 <= cyear <= 9998 ->
  1 <= pmonth <= 12 -> 1 <= pyear <= 9999 ->
  1 <= nmonth <= 12 -> 1 <= nyear <= 9999 ->
  let writes button von bis :=
    exists v b,
      MengenabweichungMain.on_period cmonth cyear pyear pmonth nyear nmonth
        button
      = [MengenabweichungMain.Update "Von" v;
         MengenabweichungMain.Update "Bis" b]
      /\ Gui.parseDate Gui.strptime_model (Some v)
         = Gui.ret (Some von, true)
      /\ Gui.parseDate Gui.strptime_model (Some b)
         = Gui.ret (Some bis, true) in
  writes "Aktueller Monat"
    (Gui.Datetime cyear cmonth 1) (Gui.Datetime nyear nmonth 1)
  /\ writes "Letzter Monat"
       (Gui.Datetime pyear pmonth 1) (Gui.Datetime cyear cmonth 1)
  /\ writes "Aktuelles Jahr"
       (Gui.Datetime cyear 1 1) (Gui.Datetime (cyear + 1) 1 1)
  /\ writes "Letztes Jahr"
       (Gui.Datetime (cyear - 1) 1 1) (Gui.Datetime cyear 1 1).
Proof.
  intros Hcm Hcy Hpm Hpy Hnm Hny writes. unfold writes.
  repeat split; eexists _, _;
    (split; [reflexivity|]);
    split;
    first [ apply first_of_month_parses; lia
          | apply (first_of_month_parses 1); lia ].
Qed.

(** X10 in March 2024. *)
Lemma period_buttons_write_accepted_dates_witness :
  MengenabweichungMain.on_period 3 2024 2024 2 2024 4 "Letzter Monat"
  = [MengenabweichungMain.Update "Von" "01.02.2024";
     MengenabweichungMain.Update "Bis" "01.03.2024"]
  /\ exists v b,
       MengenabweichungMain.on_period 3 2024 2024 2 2024 4 "Aktuelles Jahr"
       = [MengenabweichungMain.Update "Von" v;
          MengenabweichungMain.Update "Bis" b]
       /\ Gui.parseDate Gui.strptime_model (Some v)
          = Gui.ret (Some (Gui.Datetime 2024 1 1), true)
       /\ Gui.parseDate Gui.strptime_model (Some b)
          = Gui.ret (Some (Gui.Datetime 2025 1 1), true).
Proof.
  split; [vm_compute; reflexivity|].
  exact (proj1 (proj2 (proj2
    (period_buttons_write_accepted_dates 3 2024 2024 2 2024 4
       ltac:(lia) ltac:(lia) ltac:(lia) ltac:(lia) ltac:(lia) ltac:(lia))))).
Defined.

(** X11 on three presses with "test" selected, whose connection is
    refused. *)
Lemma same_selection_connects_once_witness :
  let r := Samples.press (CompleteSqlMain.System "test") "-" "select 1" in
  (length (List.filter CompleteSqlMain.is_connect
             (Samples.sample_main [r; r; r]).1) <= 1)%nat.
Proof.
  intros r.
  apply (same_selection_connects_once string string
           Samples.sample_connect Samples.sample_completeSQL
           (Samples.always string) (Samples.always string)
           Samples.sample_str (Samples.missing "sqlfmt")
           (Samples.missing "sqlparse") (Samples.missing "sqlparse")
           (CompleteSqlMain.System "test") [r; r; r]).
  repeat constructor.
Defined.
